(** * libosmium: coordinates of a Location and their text codec

    A shallow embedding of [include/osmium/osm/location.hpp] (the decimal
    parser [string_to_location_coordinate], the formatter
    [append_location_coordinate_to_string] and the class [Location]) and of
    [str_to_int] from [include/osmium/util/misc.hpp].

    Conventions of the embedding:
    - a C string ([const char*]) is the list of its characters up to, and
      without, the terminating NUL; reading at the end of the list yields
      NUL, and a pointer increment is [next];
    - [int32_t], [int64_t] and [long long] values are integers of [Z]; an
      arithmetic result that can leave the range of its type is reduced
      with [wrap32] or [wrap64] (two's complement); division and remainder
      truncate towards zero ([Z.quot], [Z.rem]);
    - a function that can throw returns an [outcome]. *)

From Stdlib Require Import ZArith List Ascii String Bool Lia PrimFloat Uint63.
From Stdlib Require Import DecimalString.
Import ListNotations.

Local Open Scope Z_scope.

(** ** Machine integers *)

Definition wrap (bits : Z) (z : Z) : Z :=
  (z + 2 ^ (bits - 1)) mod 2 ^ bits - 2 ^ (bits - 1).

Definition wrap32 : Z -> Z := wrap 32.
Definition wrap64 : Z -> Z := wrap 64.

Definition int32_min : Z := -2147483648.
Definition int32_max : Z := 2147483647.
Definition llong_max : Z := 9223372036854775807.
Definition llong_min : Z := -9223372036854775808.

(** ** Characters and C strings *)

Definition cstring : Type := list ascii.

Definition NUL : ascii := "000"%char.

(** Character code, as the [int] a [char] is promoted to. *)
Definition ord (c : ascii) : Z := Z.of_N (N_of_ascii c).

(** Conversion of an [int] to [char]: the low eight bits. *)
Definition chr (z : Z) : ascii := ascii_of_N (Z.to_N (z mod 256)).

(** [str[0]], the character under the cursor *)
Definition peek (str : cstring) : ascii :=
  match str with
  | [] => NUL
  | c :: _ => c
  end.

(** [str + 1] *)
Definition next (str : cstring) : cstring := tl str.

(** [str[0] >= '0' && str[0] <= '9'] *)
Definition is_digit (c : ascii) : bool :=
  (ord "0" <=? ord c) && (ord c <=? ord "9").

(** [str[0] - '0'] *)
Definition digit_value (c : ascii) : Z := ord c - ord "0".

Definition cstr (s : string) : cstring := list_ascii_of_string s.

(** [c == d] on characters *)
Definition is_char (c : ascii) (d : ascii) : bool := Ascii.eqb c d.

Definition is_char_nul (c : ascii) : bool := is_char c NUL.

(** The decimal spelling of an integer. *)
Definition decimal (z : Z) : cstring :=
  cstr (NilZero.string_of_int (Z.to_int z)).

(** ** Exceptions *)

(** [struct invalid_location : public std::range_error], with its [what]. *)
Inductive exception : Type :=
| invalid_location (what : cstring).

Inductive outcome (A : Type) : Type :=
| OK (a : A)
| Throw (e : exception).

Arguments OK {A} a.
Arguments Throw {A} e.

Definition bind {A B : Type} (r : outcome A) (k : A -> outcome B) : outcome B :=
  match r with
  | OK a => k a
  | Throw e => Throw e
  end.

Notation "x <- r ;; k" := (bind r (fun x => k))
  (at level 61, r at next level, right associativity).
Notation "' p <- r ;; k" := (bind r (fun x => let p := x in k))
  (at level 61, p pattern, r at next level, right associativity).

(** ** The decimal parser *)

Module detail.

Definition coordinate_precision : Z := 10000000.

(** [while (str[0] >= '0' && str[0] <= '9' && max_digits > 0)
       { acc = acc * 10 + (str[0] - '0'); ++str; --max_digits; }]
    The loop of the integer part and the loop of the exponent have this
    shape; the accumulator is an [int64_t]. *)
Fixpoint accumulate_digits (str : cstring) (acc max_digits : Z)
  : cstring * Z * Z :=
  match str with
  | c :: str' =>
      if is_digit c && (0 <? max_digits)
      then accumulate_digits str' (wrap64 (acc * 10 + digit_value c))
                             (max_digits - 1)
      else (str, acc, max_digits)
  | [] => (str, acc, max_digits)
  end.

(** [for (; scale > 0 && str[0] >= '0' && str[0] <= '9'; --scale, ++str)
       { result = result * 10 + (str[0] - '0'); }] *)
Fixpoint significant_digits (str : cstring) (result scale : Z)
  : cstring * Z * Z :=
  match str with
  | c :: str' =>
      if (0 <? scale) && is_digit c
      then significant_digits str' (wrap64 (result * 10 + digit_value c))
                              (scale - 1)
      else (str, result, scale)
  | [] => (str, result, scale)
  end.

(** [while (str[0] >= '0' && str[0] <= '9' && max_digits > 0)
       { ++str; --max_digits; }] *)
Fixpoint skip_digits (str : cstring) (max_digits : Z) : cstring * Z :=
  match str with
  | c :: str' =>
      if is_digit c && (0 <? max_digits)
      then skip_digits str' (max_digits - 1)
      else (str, max_digits)
  | [] => (str, max_digits)
  end.

(** [for (; scale < 0 && result > 0; ++scale) { result /= 10; }]
    run for at most [n] rounds, where [n] is [-scale] on entry. *)
Fixpoint scale_down (n : nat) (result : Z) : Z :=
  match n with
  | O => result
  | S n' => if 0 <? result then scale_down n' (Z.quot result 10) else result
  end.

(** [for (; scale > 0; --scale) { result *= 10; }]
    runs [scale] rounds. *)
Fixpoint scale_up (n : nat) (result : Z) : Z :=
  match n with
  | O => result
  | S n' => scale_up n' (wrap64 (result * 10))
  end.

Definition wrong_format (full : cstring) : exception :=
  invalid_location (cstr "wrong format for coordinate: '" ++ full ++ cstr "'").

(** Optional minus sign. *)
Definition read_sign (str : cstring) : cstring * Z :=
  if is_char (peek str) "-" then (next str, -1) else (str, 1).

(** Digits before the decimal point. *)
Definition integer_part (full str : cstring) : outcome (cstring * Z) :=
  if negb (is_char (peek str) ".") then
    if is_digit (peek str) then
      let result := digit_value (peek str) in
      let str := next str in
      let '(str, result, max_digits) := accumulate_digits str result 10 in
      if max_digits =? 0 then Throw (wrong_format full)
      else OK (str, result)
    else Throw (wrong_format full)
  else
    if negb (is_digit (peek (next str))) then Throw (wrong_format full)
    else OK (str, 0).

(** Optional decimal point and the digits after it. *)
Definition fraction_part (full str : cstring) (result scale : Z)
  : outcome (cstring * Z * Z) :=
  if is_char (peek str) "." then
    let str := next str in
    let '(str, result, scale) := significant_digits str result scale in
    let '(str, max_digits) := skip_digits str 20 in
    if max_digits =? 0 then Throw (wrong_format full)
    else OK (str, result, scale)
  else OK (str, result, scale).

(** Optional exponent in scientific notation. *)
Definition exponent_part (full str : cstring) (scale : Z)
  : outcome (cstring * Z) :=
  if is_char (peek str) "e" || is_char (peek str) "E" then
    let str := next str in
    let '(str, esign) := read_sign str in
    if is_digit (peek str) then
      let eresult := digit_value (peek str) in
      let str := next str in
      let '(str, eresult, max_digits) := accumulate_digits str eresult 5 in
      if max_digits =? 0 then Throw (wrong_format full)
      else OK (str, wrap64 (scale + wrap64 (eresult * esign)))
    else Throw (wrong_format full)
  else OK (str, scale).

(** Application of the remaining scale. *)
Definition apply_scale (result scale : Z) : Z :=
  if scale <? 0 then scale_down (Z.to_nat (- scale)) result
  else scale_up (Z.to_nat scale) result.

(** [result = (result + 5) / 10 * sign] *)
Definition round_and_sign (result sign : Z) : Z :=
  wrap64 (Z.quot (wrap64 (result + 5)) 10 * sign).

(** [int32_t string_to_location_coordinate(const char** data)]: the value
    returned and the new cursor [data[0]], or the exception thrown. *)
Definition string_to_location_coordinate (data : cstring)
  : outcome (Z * cstring) :=
  let full := data in
  let '(str, sign) := read_sign data in
  '(str, result) <- integer_part full str ;;
  '(str, result, scale) <- fraction_part full str result 8 ;;
  '(str, scale) <- exponent_part full str scale ;;
  let result := round_and_sign (apply_scale result scale) sign in
  if (int32_max <? result) || (result <? int32_min)
  then Throw (wrong_format full)
  else OK (result, str).

(** ** The decimal formatter *)

(** [do { temp[t++] = char(v % 10) + '0'; v /= 10; } while (v != 0);]
    [temp] is the part of [char temp[10]] written so far, in the order of
    its indices, and [room] the number of free places left in it.  The
    character stored is the low eight bits of the sum, whether [char] is
    signed or not.  An [int32_t] never needs more than the ten places
    (see [write_digits_room]). *)
Fixpoint write_digits (room : nat) (v : Z) (temp : list ascii) : list ascii :=
  match room with
  | O => temp
  | S room' =>
      let temp := temp ++ [chr (Z.rem v 10 + ord "0")] in
      let v := Z.quot v 10 in
      if v =? 0 then temp else write_digits room' v temp
  end.

(** [while (t - temp < 7) { temp[t++] = '0'; }] *)
Definition pad_to_seven (temp : list ascii) : list ascii :=
  temp ++ repeat "0"%char (7 - List.length temp).

(** [iterator[0] = temp[--t]; iterator++]: the state is the text written
    to the iterator and the used part of [temp]. *)
Definition emit_top (st : cstring * list ascii) : cstring * list ascii :=
  let '(out, temp) := st in (out ++ [last temp NUL], removelast temp).

(** Digits before the decimal point. *)
Definition emit_integer_digits (value : Z) (st : cstring * list ascii)
  : cstring * list ascii :=
  if coordinate_precision <=? value then
    let st :=
      if 10 * coordinate_precision <=? value then
        let st :=
          if 100 * coordinate_precision <=? value then emit_top st else st in
        emit_top st
      else st in
    emit_top st
  else (fst st ++ ["0"%char], snd st).

(** [tn = temp; while (tn < t && tn[0] == '0') { ++tn; }]: what is left
    of [temp] between [tn] and [t]. *)
Fixpoint skip_zeros (temp : list ascii) : list ascii :=
  match temp with
  | c :: temp' => if is_char c "0" then skip_zeros temp' else temp
  | [] => []
  end.

(** [if (t != tn) { iterator[0] = '.'; ... while (t != tn) emit temp[--t] }] *)
Definition emit_fraction (st : cstring * list ascii) : cstring :=
  let '(out, temp) := st in
  match skip_zeros temp with
  | [] => out
  | kept => out ++ ["."%char] ++ rev kept
  end.

(** [T append_location_coordinate_to_string(T iterator, int32_t value)]:
    the characters written to the output iterator.  The negation of the
    least [int32_t] overflows; it is taken with wrap-around. *)
Definition append_location_coordinate_to_string (value : Z) : cstring :=
  let out := if value <? 0 then ["-"%char] else [] in
  let value := if value <? 0 then wrap32 (- value) else value in
  let temp := pad_to_seven (write_digits 10 value []) in
  emit_fraction (emit_integer_digits value (out, temp)).

(** ** [str_to_int] of util/misc.hpp *)

(** The return types [str_to_int] is instantiated at. *)
Inductive int_type : Type :=
| int8_t | uint8_t | int16_t | uint16_t
| int32_t | uint32_t | int64_t | uint64_t.

Definition is_signed (T : int_type) : bool :=
  match T with
  | int8_t | int16_t | int32_t | int64_t => true
  | _ => false
  end.

Definition bits (T : int_type) : Z :=
  match T with
  | int8_t | uint8_t => 8
  | int16_t | uint16_t => 16
  | int32_t | uint32_t => 32
  | int64_t | uint64_t => 64
  end.

(** [std::numeric_limits<T>::max()] *)
Definition numeric_limits_max (T : int_type) : Z :=
  if is_signed T then 2 ^ (bits T - 1) - 1 else 2 ^ bits T - 1.

(** [static_cast<T>(z)] *)
Definition static_cast (T : int_type) (z : Z) : Z :=
  if is_signed T then wrap (bits T) z else z mod 2 ^ bits T.

(** [get_max_int<T>()], with its specialisation for [uint64_t]. *)
Definition get_max_int (T : int_type) : Z :=
  match T with
  | uint64_t => llong_max
  | _ => static_cast int64_t (numeric_limits_max T)
  end.

(** [std::strtoll(str, &end, 10)] of the C library, after ISO C: white
    space is skipped, an optional sign and the longest run of decimal
    digits are read; without a digit nothing is converted, the value is 0
    and [end] is [str]; a value out of the range of [long long] is
    clamped and [errno] becomes [ERANGE]. *)
Definition ERANGE : Z := 34.

Definition isspace (c : ascii) : bool :=
  (ord c =? 32) || ((9 <=? ord c) && (ord c <=? 13)).

Fixpoint skip_space (str : cstring) : cstring :=
  match str with
  | c :: str' => if isspace c then skip_space str' else str
  | [] => []
  end.

Fixpoint read_number (str : cstring) (acc : Z) : cstring * Z :=
  match str with
  | c :: str' =>
      if is_digit c then read_number str' (acc * 10 + digit_value c)
      else (str, acc)
  | [] => (str, acc)
  end.

Record strtoll_result : Type := {
  strtoll_value : Z;
  strtoll_end : cstring;
  strtoll_errno : Z
}.

Definition strtoll (str : cstring) : strtoll_result :=
  let s := skip_space str in
  let '(s, negative) :=
    if is_char (peek s) "-" then (next s, true)
    else if is_char (peek s) "+" then (next s, false)
    else (s, false) in
  if is_digit (peek s) then
    let '(rest, n) := read_number s 0 in
    let v := if negative then - n else n in
    if llong_max <? v then
      {| strtoll_value := llong_max; strtoll_end := rest;
         strtoll_errno := ERANGE |}
    else if v <? llong_min then
      {| strtoll_value := llong_min; strtoll_end := rest;
         strtoll_errno := ERANGE |}
    else {| strtoll_value := v; strtoll_end := rest; strtoll_errno := 0 |}
  else {| strtoll_value := 0; strtoll_end := str; strtoll_errno := 0 |}.

(** [TReturn str_to_int<TReturn>(const char* str)] *)
Definition str_to_int (TReturn : int_type) (str : cstring) : Z :=
  let r := strtoll str in
  let value := strtoll_value r in
  if negb (strtoll_errno r =? 0) || (value <? 0)
     || (get_max_int TReturn <=? value)
     || negb (is_char_nul (peek (strtoll_end r)))
  then 0
  else static_cast TReturn value.

End detail.

(** ** The class [Location] *)

Record Location : Type := make_Location {
  m_x : Z;
  m_y : Z
}.

Definition undefined_coordinate : Z := 2147483647.

(** [static_cast<double>(c)] for an [int32_t]; the conversion is exact. *)
Definition int32_to_double (c : Z) : float :=
  if c <? 0 then PrimFloat.opp (PrimFloat.of_uint63 (Uint63.of_Z (- c)))
  else PrimFloat.of_uint63 (Uint63.of_Z c).

Definition fix_to_double (c : Z) : float :=
  PrimFloat.div (int32_to_double c)
                (int32_to_double detail.coordinate_precision).

(** [Location()] *)
Definition undefined_Location : Location :=
  make_Location undefined_coordinate undefined_coordinate.

(** [explicit operator bool()] *)
Definition defined (l : Location) : bool :=
  negb (m_x l =? undefined_coordinate) && negb (m_y l =? undefined_coordinate).

Definition valid (l : Location) : bool :=
  (-180 * detail.coordinate_precision <=? m_x l)
  && (m_x l <=? 180 * detail.coordinate_precision)
  && (-90 * detail.coordinate_precision <=? m_y l)
  && (m_y l <=? 90 * detail.coordinate_precision).

Definition x (l : Location) : Z := m_x l.
Definition y (l : Location) : Z := m_y l.

Definition set_x (l : Location) (v : Z) : Location := make_Location v (m_y l).
Definition set_y (l : Location) (v : Z) : Location := make_Location (m_x l) v.

Definition invalid_location_error : exception :=
  invalid_location (cstr "invalid location").

Definition lon (l : Location) : outcome float :=
  if negb (valid l) then Throw invalid_location_error
  else OK (fix_to_double (m_x l)).

Definition lon_without_check (l : Location) : float := fix_to_double (m_x l).

Definition lat (l : Location) : outcome float :=
  if negb (valid l) then Throw invalid_location_error
  else OK (fix_to_double (m_y l)).

Definition lat_without_check (l : Location) : float := fix_to_double (m_y l).

Definition characters_after (data : cstring) : exception :=
  invalid_location (cstr "characters after coordinate: '" ++ data ++ cstr "'").

(** [Location& set_lon(const char* str)]: the object as the call leaves
    it, and whether the call returned or threw.  The assignment to [m_x]
    takes place once the parser has returned, before the test for
    characters after the coordinate. *)
Definition set_lon (self : Location) (str : cstring)
  : Location * outcome unit :=
  match detail.string_to_location_coordinate str with
  | Throw e => (self, Throw e)
  | OK (value, data) =>
      let self := set_x self value in
      if negb (is_char_nul (peek data))
      then (self, Throw (characters_after data))
      else (self, OK tt)
  end.

Definition set_lat (self : Location) (str : cstring)
  : Location * outcome unit :=
  match detail.string_to_location_coordinate str with
  | Throw e => (self, Throw e)
  | OK (value, data) =>
      let self := set_y self value in
      if negb (is_char_nul (peek data))
      then (self, Throw (characters_after data))
      else (self, OK tt)
  end.

(** [set_lon_partial(const char** str)]: the object and the new cursor. *)
Definition set_lon_partial (self : Location) (str : cstring)
  : outcome (Location * cstring) :=
  '(value, str) <- detail.string_to_location_coordinate str ;;
  OK (set_x self value, str).

Definition set_lat_partial (self : Location) (str : cstring)
  : outcome (Location * cstring) :=
  '(value, str) <- detail.string_to_location_coordinate str ;;
  OK (set_y self value, str).

(** [as_string_without_check(iterator, separator)] *)
Definition as_string_without_check (l : Location) (separator : ascii)
  : cstring :=
  detail.append_location_coordinate_to_string (x l)
  ++ [separator]
  ++ detail.append_location_coordinate_to_string (y l).

Definition as_string (l : Location) (separator : ascii) : outcome cstring :=
  if negb (valid l) then Throw invalid_location_error
  else OK (as_string_without_check l separator).

(** [operator==] and [operator<] *)
Definition Location_eq (lhs rhs : Location) : bool :=
  (x lhs =? x rhs) && (y lhs =? y rhs).

Definition Location_lt (lhs rhs : Location) : bool :=
  ((x lhs =? x rhs) && (y lhs <? y rhs)) || (x lhs <? x rhs).

Definition Location_gt (lhs rhs : Location) : bool := Location_lt rhs lhs.
Definition Location_le (lhs rhs : Location) : bool := negb (Location_lt rhs lhs).
Definition Location_ge (lhs rhs : Location) : bool := negb (Location_lt lhs rhs).

Import detail.

(** ** Decimal digits, for the statements about the codec *)

(** The character of a digit [d], as the formatter writes it. *)
Definition digit_char (d : Z) : ascii := chr (d + ord "0").

(** The [n] low decimal digits of [a], the least significant first. *)
Fixpoint lsd_digits (n : nat) (a : Z) : list Z :=
  match n with
  | O => []
  | S n' => a mod 10 :: lsd_digits n' (a / 10)
  end.

(** The number a list of digits spells, least significant digit first. *)
Fixpoint lsd_value (ds : list Z) : Z :=
  match ds with
  | [] => 0
  | d :: ds' => d + 10 * lsd_value ds'
  end.

(** The number a list of digits spells after [acc], most significant
    digit first. *)
Definition msd_value (ds : list Z) (acc : Z) : Z :=
  fold_left (fun acc d => acc * 10 + d) ds acc.

Fixpoint drop_zeros (ds : list Z) : list Z :=
  match ds with
  | d :: ds' => if d =? 0 then drop_zeros ds' else ds
  | [] => []
  end.

Definition pow10 (n : nat) : Z := 10 ^ Z.of_nat n.

(** The text of an integer part [q] of at most three digits, and the
    text of the seven digits after the point of [a] without its trailing
    zeros, empty when all seven are zero. *)
Definition integer_text (q : Z) : cstring :=
  map digit_char
      (rev (lsd_digits (if 100 <=? q then 3 else if 10 <=? q then 2 else 1) q)).

Definition fraction_text (a : Z) : cstring :=
  match drop_zeros (lsd_digits 7 a) with
  | [] => []
  | kept => "."%char :: map digit_char (rev kept)
  end.

Definition is_digit_value (d : Z) : Prop := 0 <= d <= 9.

(** The number of digits the formatter takes for the integer part from
    [temp]. *)
Definition popped (a : Z) : nat :=
  if 1000000000 <=? a then 3
  else if 100000000 <=? a then 2
  else if 10000000 <=? a then 1
  else 0.

(** The text holds a decimal point. *)
Definition has_decimal_point (s : cstring) : bool :=
  existsb (fun c => is_char c ".") s.

(** The last character of the text is one of '1' to '9'. *)
Definition ends_in_nonzero_digit (s : cstring) : bool :=
  is_digit (last s NUL) && negb (is_char (last s NUL) "0").

(** ** Plain decimal texts, for the statements about the parser *)

(** A character that continues a decimal literal: a digit, the decimal
    point or the letter of an exponent. *)
Definition continues_literal (c : ascii) : bool :=
  is_digit c || is_char c "." || is_char c "e" || is_char c "E".

(** The text of a decimal without exponent: an optional minus sign, the
    digits [I] before the point and, when [F] is not empty, a point and
    the digits [F] after it. *)
Definition decimal_text (negative : bool) (I F : list Z) : cstring :=
  (if negative then ["-"%char] else [])
    ++ map digit_char I
    ++ match F with [] => [] | _ => "."%char :: map digit_char F end.

(** The number of such a text in units of 1/10000000: the digits before
    the point and the first eight digits after it, brought to eight
    places and rounded half up to seven. *)
Definition decimal_scaled (I F : list Z) : Z :=
  let used := firstn 8 F in
  (msd_value (I ++ used) 0 * pow10 (8 - List.length used) + 5) / 10.

(** The digits of a decimal text that the parser keeps: those before the
    point and the first eight after it. *)
Definition kept_digits (I F : list Z) : Z := msd_value (I ++ firstn 8 F) 0.

(** The text of an exponent: the letter, an optional minus sign and the
    digits [E]. *)
Definition exponent_text (letter : ascii) (negative : bool) (E : list Z)
  : cstring :=
  letter :: (if negative then ["-"%char] else []) ++ map digit_char E.

(** [operator!=] *)
Definition Location_ne (lhs rhs : Location) : bool :=
  negb (Location_eq lhs rhs).

(** Both coordinates are values of [int32_t], as the members [m_x] and
    [m_y] of the class are. *)
Definition int32_Location (l : Location) : Prop :=
  int32_min <= x l <= int32_max /\ int32_min <= y l <= int32_max.

(** [detail::hash<N>(location)] for [N] other than 8:
    [return location.x() ^ location.y();], the [int] converted to a
    [size_t] of [N] bytes. *)
Definition hash_generic (N : Z) (location : Location) : Z :=
  Z.lxor (x location) (y location) mod 2 ^ (8 * N).

(** [detail::hash<8>(location)]:
    [size_t h = location.x(); h <<= 32; return h ^ location.y();]
    with a [size_t] of 64 bits, to which the [int32_t] coordinates are
    converted. *)
Definition hash_8 (location : Location) : Z :=
  let h := x location mod 2 ^ 64 in
  let h := Z.shiftl h 32 mod 2 ^ 64 in
  Z.lxor h (y location mod 2 ^ 64).

(** [std::hash<osmium::Location>], with [N = sizeof(size_t)]. *)
Definition Location_hash (N : Z) (location : Location) : Z :=
  if N =? 8 then hash_8 location else hash_generic N location.

(** * Properties *)

(** ** Machine integers *)

Lemma wrap_small (bits z : Z) :
  0 < bits -> - 2 ^ (bits - 1) <= z < 2 ^ (bits - 1) -> wrap bits z = z.
Proof.
  intros Hb Hz. unfold wrap.
  assert (Hp : 2 ^ bits = 2 * 2 ^ (bits - 1)).
  { replace bits with (Z.succ (bits - 1)) at 1 by lia.
    apply Z.pow_succ_r. lia. }
  rewrite Z.mod_small; lia.
Qed.

Lemma wrap32_small (z : Z) : int32_min <= z <= int32_max -> wrap32 z = z.
Proof.
  unfold int32_min, int32_max, wrap32, wrap. intros H.
  change (2 ^ (32 - 1)) with 2147483648. change (2 ^ 32) with 4294967296.
  rewrite Z.mod_small; lia.
Qed.

Lemma wrap64_small (z : Z) : llong_min <= z <= llong_max -> wrap64 z = z.
Proof.
  unfold llong_min, llong_max, wrap64, wrap. intros H.
  change (2 ^ (64 - 1)) with 9223372036854775808.
  change (2 ^ 64) with 18446744073709551616.
  rewrite Z.mod_small; lia.
Qed.

(** ** Digits and their characters *)

Lemma digit_char_cases (d : Z) :
  is_digit_value d ->
  is_digit (digit_char d) = true /\ digit_value (digit_char d) = d
  /\ is_char (digit_char d) "0" = (d =? 0)
  /\ is_char (digit_char d) "." = false
  /\ is_char (digit_char d) "-" = false.
Proof.
  unfold is_digit_value. intros H.
  assert (Hc : d = 0 \/ d = 1 \/ d = 2 \/ d = 3 \/ d = 4 \/ d = 5 \/ d = 6
               \/ d = 7 \/ d = 8 \/ d = 9) by lia.
  repeat (destruct Hc as [-> | Hc]); try subst d; repeat split; reflexivity.
Qed.

Lemma pow10_S (n : nat) : pow10 (S n) = 10 * pow10 n.
Proof. unfold pow10. rewrite Nat2Z.inj_succ. apply Z.pow_succ_r. lia. Qed.

Lemma pow10_pos (n : nat) : 0 < pow10 n.
Proof. unfold pow10. apply Z.pow_pos_nonneg; lia. Qed.

Lemma pow10_add (n m : nat) : pow10 (n + m) = pow10 n * pow10 m.
Proof. unfold pow10. rewrite Nat2Z.inj_add. apply Z.pow_add_r; lia. Qed.

Lemma lsd_digits_length (n : nat) : forall a, List.length (lsd_digits n a) = n.
Proof. induction n; intros a; cbn; [reflexivity | now rewrite IHn]. Qed.

Lemma lsd_digits_range (n : nat) :
  forall a, Forall is_digit_value (lsd_digits n a).
Proof.
  induction n; intros a; cbn; constructor; [| apply IHn].
  unfold is_digit_value. pose proof (Z.mod_pos_bound a 10). lia.
Qed.

Lemma lsd_digits_app (m j : nat) :
  forall a, lsd_digits (m + j) a = lsd_digits m a ++ lsd_digits j (a / pow10 m).
Proof.
  induction m as [| m IH]; intros a.
  - cbn. now rewrite Z.div_1_r.
  - cbn [Nat.add lsd_digits app]. rewrite IH, pow10_S.
    rewrite Z.div_div by (pose proof (pow10_pos m); lia). reflexivity.
Qed.

Lemma lsd_digits_zero (n : nat) : lsd_digits n 0 = repeat 0 n.
Proof. induction n; cbn; [reflexivity | now rewrite IHn]. Qed.

Lemma lsd_value_digits (n : nat) :
  forall a, 0 <= a -> lsd_value (lsd_digits n a) = a mod pow10 n.
Proof.
  induction n as [| n IH]; intros a Ha.
  - cbn. now rewrite Z.mod_1_r.
  - cbn [lsd_digits lsd_value]. rewrite IH by (apply Z.div_pos; lia).
    rewrite pow10_S. pose proof (pow10_pos n) as Hp.
    rewrite Z.rem_mul_r by lia. reflexivity.
Qed.

Lemma msd_value_app (l1 l2 : list Z) (acc : Z) :
  msd_value (l1 ++ l2) acc = msd_value l2 (msd_value l1 acc).
Proof. apply fold_left_app. Qed.

Lemma msd_value_rev (ds : list Z) : msd_value (rev ds) 0 = lsd_value ds.
Proof.
  induction ds as [| d ds IH]; [reflexivity |].
  cbn [rev lsd_value]. rewrite msd_value_app, IH.
  change (msd_value [d] (lsd_value ds)) with (lsd_value ds * 10 + d). lia.
Qed.

Lemma msd_value_acc (ds : list Z) :
  forall acc,
    msd_value ds acc = acc * pow10 (List.length ds) + msd_value ds 0.
Proof.
  induction ds as [| d ds IH]; intros acc.
  - cbn. lia.
  - cbn [msd_value fold_left List.length]. fold (msd_value ds (acc * 10 + d)).
    fold (msd_value ds (0 * 10 + d)).
    rewrite (IH (acc * 10 + d)), (IH (0 * 10 + d)), pow10_S. lia.
Qed.

Lemma msd_value_bounds (ds : list Z) :
  Forall is_digit_value ds ->
  0 <= msd_value ds 0 < pow10 (List.length ds).
Proof.
  induction ds as [| d ds IH] using rev_ind; intros H.
  - cbn. lia.
  - apply Forall_app in H. destruct H as [H1 H2].
    inversion H2 as [| ? ? Hd _]; subst. unfold is_digit_value in Hd.
    rewrite msd_value_app, length_app, Nat.add_comm. cbn [List.length Nat.add].
    rewrite pow10_S. specialize (IH H1).
    change (msd_value [d] (msd_value ds 0)) with (msd_value ds 0 * 10 + d). lia.
Qed.

Lemma drop_zeros_split (ds : list Z) :
  exists z, ds = repeat 0 z ++ drop_zeros ds
            /\ (z + List.length (drop_zeros ds) = List.length ds)%nat.
Proof.
  induction ds as [| d ds [z [IH IHlen]]].
  - exists O. split; reflexivity.
  - cbn [drop_zeros]. destruct (d =? 0) eqn:Hd.
    + apply Z.eqb_eq in Hd. subst d. exists (S z). cbn [repeat app List.length].
      split; [now rewrite <- IH | lia].
    + exists O. split; reflexivity.
Qed.

Lemma drop_zeros_head (ds : list Z) :
  match drop_zeros ds with
  | [] => True
  | d :: _ => d <> 0
  end.
Proof.
  induction ds as [| d ds IH]; [exact I |].
  cbn [drop_zeros]. destruct (d =? 0) eqn:Hd; [exact IH |].
  apply Z.eqb_neq in Hd. exact Hd.
Qed.

Lemma drop_zeros_range (ds : list Z) :
  Forall is_digit_value ds -> Forall is_digit_value (drop_zeros ds).
Proof.
  induction 1 as [| d ds Hd Hds IH]; [constructor |].
  cbn [drop_zeros]. destruct (d =? 0); [exact IH | now constructor].
Qed.

Lemma lsd_value_zeros (z : nat) (ds : list Z) :
  lsd_value (repeat 0 z ++ ds) = pow10 z * lsd_value ds.
Proof.
  induction z as [| z IH].
  - cbn [repeat app]. change (pow10 0) with 1. lia.
  - cbn [repeat app lsd_value]. rewrite IH, pow10_S. lia.
Qed.

Lemma drop_zeros_nil (ds : list Z) :
  drop_zeros ds = [] -> lsd_value ds = 0.
Proof.
  intros H. destruct (drop_zeros_split ds) as [z [Hz _]].
  rewrite Hz, H, lsd_value_zeros. cbn [lsd_value]. lia.
Qed.

(** ** The formatter on values that are not negative *)

(** The digit loop does not depend on the room left in [temp] once the
    room covers the digits of the value: the ten places are enough for
    every [int32_t]. *)
Lemma write_digits_room (n : nat) :
  forall room room' v temp,
    Z.abs v < pow10 n -> (1 <= n <= room)%nat -> (n <= room')%nat ->
    write_digits room v temp = write_digits room' v temp.
Proof.
  induction n as [| n IH]; intros room room' v temp Hv Hr Hr'; [lia |].
  destruct room as [| room]; [lia |]. destruct room' as [| room']; [lia |].
  cbn [write_digits].
  destruct (Z.quot v 10 =? 0) eqn:Hq; [reflexivity |].
  apply Z.eqb_neq in Hq.
  assert (Hn : (1 <= n)%nat).
  { destruct n; [| lia]. exfalso. apply Hq.
    change (pow10 1) with 10 in Hv. apply Z.quot_small_iff; lia. }
  apply IH; try lia.
  rewrite pow10_S in Hv.
  rewrite <- Z.quot_abs by lia. change (Z.abs 10) with 10.
  apply Z.quot_lt_upper_bound; lia.
Qed.

Lemma write_digits_lsd (n : nat) :
  forall room a temp,
    (1 <= n <= room)%nat -> 0 <= a < pow10 n ->
    (n = 1%nat \/ pow10 (n - 1) <= a) ->
    write_digits room a temp = temp ++ map digit_char (lsd_digits n a).
Proof.
  induction n as [| n IH]; intros room a temp Hr Ha Hn; [lia |].
  destruct room as [| room]; [lia |].
  cbn [write_digits lsd_digits map].
  rewrite Z.rem_mod_nonneg, Z.quot_div_nonneg by lia.
  fold (digit_char (a mod 10)).
  rewrite pow10_S in Ha.
  destruct (a / 10 =? 0) eqn:Hq.
  - apply Z.eqb_eq in Hq.
    assert (a < 10) by (apply Z.div_small_iff in Hq; lia).
    destruct n as [| n]; [reflexivity |].
    exfalso. destruct Hn as [Hn | Hn]; [lia |].
    replace (S (S n) - 1)%nat with (S n) in Hn by lia.
    rewrite pow10_S in Hn. pose proof (pow10_pos n). lia.
  - apply Z.eqb_neq in Hq.
    assert (10 <= a).
    { destruct (Z_lt_dec a 10); [| lia]. exfalso. apply Hq.
      apply Z.div_small. lia. }
    destruct n as [| n]; [change (pow10 0) with 1 in Ha; lia |].
    rewrite (IH room (a / 10) (temp ++ [digit_char (a mod 10)])).
    + rewrite <- app_assoc. reflexivity.
    + lia.
    + split; [apply Z.div_pos; lia |].
      apply Z.div_lt_upper_bound; lia.
    + destruct n as [| n]; [left; reflexivity | right].
      destruct Hn as [Hn | Hn]; [lia |].
      replace (S (S (S n)) - 1)%nat with (S (S n)) in Hn by lia.
      replace (S (S n) - 1)%nat with (S n) by lia.
      rewrite pow10_S in Hn. apply Z.div_le_lower_bound; lia.
Qed.

Lemma digit_count (a : Z) :
  0 <= a < pow10 10 ->
  exists n, (1 <= n <= 10)%nat /\ a < pow10 n
            /\ (n = 1%nat \/ pow10 (n - 1) <= a).
Proof.
  intros Ha. unfold pow10 in *.
  destruct (Z_lt_dec a 10); [exists 1%nat; cbn; lia |].
  destruct (Z_lt_dec a 100); [exists 2%nat; cbn; lia |].
  destruct (Z_lt_dec a 1000); [exists 3%nat; cbn; lia |].
  destruct (Z_lt_dec a 10000); [exists 4%nat; cbn; lia |].
  destruct (Z_lt_dec a 100000); [exists 5%nat; cbn; lia |].
  destruct (Z_lt_dec a 1000000); [exists 6%nat; cbn; lia |].
  destruct (Z_lt_dec a 10000000); [exists 7%nat; cbn; lia |].
  destruct (Z_lt_dec a 100000000); [exists 8%nat; cbn; lia |].
  destruct (Z_lt_dec a 1000000000); [exists 9%nat; cbn; lia |].
  exists 10%nat; cbn; lia.
Qed.

Lemma lsd_digits_pad (n k : nat) (a : Z) :
  0 <= a < pow10 n ->
  lsd_digits (n + k) a = lsd_digits n a ++ repeat 0 k.
Proof.
  intros Ha. rewrite lsd_digits_app, Z.div_small by lia.
  now rewrite lsd_digits_zero.
Qed.

Lemma padded_digits (a : Z) :
  0 <= a < pow10 10 ->
  pad_to_seven (write_digits 10 a [])
  = map digit_char (lsd_digits (7 + popped a) a).
Proof.
  intros Ha. destruct (digit_count a Ha) as [n [Hn [Hlt Hge]]].
  rewrite (write_digits_lsd n 10 a []) by (try assumption; lia).
  cbn [app]. unfold pad_to_seven. rewrite length_map, lsd_digits_length.
  destruct (le_dec n 7) as [Hle | Hgt].
  - assert (Hp : popped a = 0%nat).
    { assert (pow10 n <= pow10 7).
      { unfold pow10. apply Z.pow_le_mono_r; lia. }
      change (pow10 7) with 10000000 in *. unfold popped.
      repeat match goal with
             | |- context [?c <=? a] =>
                 replace (c <=? a) with false by (symmetry; apply Z.leb_gt; lia)
             end. reflexivity. }
    rewrite Hp, Nat.add_0_r.
    replace 7%nat with (n + (7 - n))%nat at 2 by lia.
    rewrite lsd_digits_pad by lia.
    rewrite map_app, map_repeat. reflexivity.
  - replace (7 - n)%nat with 0%nat by lia. cbn [repeat]. rewrite app_nil_r.
    assert (Hp : (7 + popped a)%nat = n).
    { destruct Hge as [Hge | Hge]; [lia |].
      assert (Hc : n = 8%nat \/ n = 9%nat \/ n = 10%nat) by lia.
      unfold popped.
      destruct Hc as [-> | [-> | ->]];
        [change (pow10 (8 - 1)) with 10000000 in Hge; change (pow10 8) with 100000000 in Hlt
        |change (pow10 (9 - 1)) with 100000000 in Hge; change (pow10 9) with 1000000000 in Hlt
        |change (pow10 (10 - 1)) with 1000000000 in Hge];
        repeat match goal with
               | |- context [?c <=? a] =>
                   first [ replace (c <=? a) with false by (symmetry; apply Z.leb_gt; lia)
                         | replace (c <=? a) with true by (symmetry; apply Z.leb_le; lia) ]
               end; reflexivity. }
    rewrite Hp. reflexivity.
Qed.

Lemma emit_top_snoc (out temp : list ascii) (c : ascii) :
  emit_top (out, temp ++ [c]) = (out ++ [c], temp).
Proof.
  unfold emit_top. now rewrite last_last, removelast_last.
Qed.

Lemma emit_integer_digits_text (a : Z) (out : cstring) :
  0 <= a < pow10 10 ->
  emit_integer_digits a (out, map digit_char (lsd_digits (7 + popped a) a))
  = (out ++ integer_text (a / 10000000), map digit_char (lsd_digits 7 a)).
Proof.
  intros Ha. change (pow10 10) with 10000000000 in Ha.
  rewrite lsd_digits_app, map_app. change (pow10 7) with 10000000.
  set (q := a / 10000000).
  set (F := map digit_char (lsd_digits 7 a)).
  assert (Hq : 0 <= q < 1000) by (subst q; split;
    [apply Z.div_pos; lia | apply Z.div_lt_upper_bound; lia]).
  assert (Hq1 : forall c, 0 <= c -> (c * 10000000 <=? a) = (c <=? q)).
  { intros c Hc. subst q.
    pose proof (Z.div_mod a 10000000 ltac:(lia)) as Hdm.
    pose proof (Z.mod_pos_bound a 10000000 ltac:(lia)) as Hmb.
    destruct (c <=? a / 10000000) eqn:E.
    - apply Z.leb_le in E. apply Z.leb_le. lia.
    - apply Z.leb_gt in E. apply Z.leb_gt. lia. }
  unfold emit_integer_digits, popped, integer_text, coordinate_precision.
  change (10 * 10000000) with (10 * 10000000).
  replace (10000000 <=? a) with (1 <=? q) by (rewrite <- Hq1; [f_equal | lia]).
  replace (10 * 10000000 <=? a) with (10 <=? q) by (rewrite <- Hq1; [f_equal | lia]).
  replace (100 * 10000000 <=? a) with (100 <=? q) by (rewrite <- Hq1; [f_equal | lia]).
  replace (1000000000 <=? a) with (100 <=? q) by (rewrite <- Hq1; [f_equal | lia]).
  replace (100000000 <=? a) with (10 <=? q) by (rewrite <- Hq1; [f_equal | lia]).
  destruct (100 <=? q) eqn:H100.
  { apply Z.leb_le in H100.
    replace (10 <=? q) with true by (symmetry; apply Z.leb_le; lia).
    replace (1 <=? q) with true by (symmetry; apply Z.leb_le; lia).
    cbn [lsd_digits map rev app].
    change (F ++ [digit_char (q mod 10); digit_char (q / 10 mod 10);
                  digit_char (q / 10 / 10 mod 10)])
      with (F ++ [digit_char (q mod 10)] ++ [digit_char (q / 10 mod 10)]
              ++ [digit_char (q / 10 / 10 mod 10)]).
    rewrite !app_assoc, !emit_top_snoc, <- !app_assoc. reflexivity. }
  destruct (10 <=? q) eqn:H10.
  { apply Z.leb_le in H10.
    replace (1 <=? q) with true by (symmetry; apply Z.leb_le; lia).
    cbn [lsd_digits map rev app].
    change (F ++ [digit_char (q mod 10); digit_char (q / 10 mod 10)])
      with (F ++ [digit_char (q mod 10)] ++ [digit_char (q / 10 mod 10)]).
    rewrite !app_assoc, !emit_top_snoc, <- !app_assoc. reflexivity. }
  destruct (1 <=? q) eqn:H1.
  { cbn [lsd_digits map rev app].
    rewrite emit_top_snoc. reflexivity. }
  apply Z.leb_gt in H1. assert (q = 0) by lia.
  cbn [lsd_digits map rev app fst snd]. rewrite app_nil_r.
  replace q with 0 by lia. reflexivity.
Qed.

Lemma skip_zeros_digits (ds : list Z) :
  Forall is_digit_value ds ->
  skip_zeros (map digit_char ds) = map digit_char (drop_zeros ds).
Proof.
  induction 1 as [| d ds Hd Hds IH]; [reflexivity |].
  cbn [map skip_zeros drop_zeros].
  destruct (digit_char_cases d Hd) as [_ [_ [Hz _]]]. rewrite Hz.
  destruct (d =? 0); [exact IH | reflexivity].
Qed.

Lemma emit_fraction_text (a : Z) (out : cstring) :
  emit_fraction (out, map digit_char (lsd_digits 7 a))
  = out ++ fraction_text a.
Proof.
  unfold emit_fraction, fraction_text.
  rewrite skip_zeros_digits by apply lsd_digits_range.
  destruct (drop_zeros (lsd_digits 7 a)) as [| d kept].
  - cbn [map]. now rewrite app_nil_r.
  - rewrite map_rev. reflexivity.
Qed.

Lemma format_nonneg (a : Z) (out : cstring) :
  0 <= a < pow10 10 ->
  emit_fraction (emit_integer_digits a
                   (out, pad_to_seven (write_digits 10 a [])))
  = out ++ integer_text (a / 10000000) ++ fraction_text a.
Proof.
  intros Ha.
  rewrite padded_digits, emit_integer_digits_text, emit_fraction_text by assumption.
  now rewrite app_assoc.
Qed.

(** The text the formatter writes for a value other than the least
    [int32_t]. *)
Lemma format_text (v : Z) :
  int32_min < v <= int32_max ->
  append_location_coordinate_to_string v
  = (if v <? 0 then ["-"%char] else [])
      ++ integer_text (Z.abs v / 10000000) ++ fraction_text (Z.abs v).
Proof.
  unfold int32_min, int32_max. intros Hv.
  unfold append_location_coordinate_to_string.
  assert (Ha : (if v <? 0 then wrap32 (- v) else v) = Z.abs v).
  { destruct (v <? 0) eqn:E.
    - apply Z.ltb_lt in E. rewrite wrap32_small; unfold int32_min, int32_max; lia.
    - apply Z.ltb_ge in E. lia. }
  rewrite Ha. apply format_nonneg.
  change (pow10 10) with 10000000000. lia.
Qed.

(** ** The parser on the digits the formatter writes *)

Lemma accumulate_digits_value (ds : list Z) (rest : cstring) :
  forall acc max_digits,
    Forall is_digit_value ds ->
    is_digit (peek rest) = false ->
    0 <= acc ->
    (acc + 1) * pow10 (List.length ds) <= llong_max ->
    Z.of_nat (List.length ds) <= max_digits ->
    accumulate_digits (map digit_char ds ++ rest) acc max_digits
    = (rest, msd_value ds acc, max_digits - Z.of_nat (List.length ds)).
Proof.
  induction ds as [| d ds IH]; intros acc m Hds Hrest Hacc Hmax Hm.
  - cbn [map app msd_value fold_left List.length]. rewrite Z.sub_0_r.
    destruct rest as [| c rest]; [reflexivity |].
    cbn [peek] in Hrest. cbn [accumulate_digits]. rewrite Hrest. reflexivity.
  - inversion Hds as [| ? ? Hd Hds']; subst.
    destruct (digit_char_cases d Hd) as [Hdig [Hval _]].
    cbn [map app accumulate_digits List.length] in *.
    rewrite pow10_S in Hmax. pose proof (pow10_pos (List.length ds)) as Hp.
    unfold is_digit_value in Hd.
    rewrite Hdig, Hval. cbn [andb].
    replace (0 <? m) with true by (symmetry; apply Z.ltb_lt; lia).
    rewrite wrap64_small by (unfold llong_min; nia).
    rewrite IH; try assumption; try nia; try lia.
    f_equal. lia.
Qed.

Lemma significant_digits_value (ds : list Z) (rest : cstring) :
  forall result scale,
    Forall is_digit_value ds ->
    is_digit (peek rest) = false ->
    0 <= result ->
    (result + 1) * pow10 (List.length ds) <= llong_max ->
    Z.of_nat (List.length ds) <= scale ->
    significant_digits (map digit_char ds ++ rest) result scale
    = (rest, msd_value ds result, scale - Z.of_nat (List.length ds)).
Proof.
  induction ds as [| d ds IH]; intros acc m Hds Hrest Hacc Hmax Hm.
  - cbn [map app msd_value fold_left List.length]. rewrite Z.sub_0_r.
    destruct rest as [| c rest]; [reflexivity |].
    cbn [peek] in Hrest. cbn [significant_digits]. rewrite Hrest.
    rewrite andb_false_r. reflexivity.
  - inversion Hds as [| ? ? Hd Hds']; subst.
    destruct (digit_char_cases d Hd) as [Hdig [Hval _]].
    cbn [map app significant_digits List.length] in *.
    rewrite pow10_S in Hmax. pose proof (pow10_pos (List.length ds)) as Hp.
    unfold is_digit_value in Hd.
    rewrite Hdig, Hval.
    replace (0 <? m) with true by (symmetry; apply Z.ltb_lt; lia).
    cbn [andb].
    rewrite wrap64_small by (unfold llong_min; nia).
    rewrite IH; try assumption; try nia; try lia.
    f_equal. lia.
Qed.

Lemma skip_digits_none (rest : cstring) (max_digits : Z) :
  is_digit (peek rest) = false -> skip_digits rest max_digits = (rest, max_digits).
Proof.
  destruct rest as [| c rest]; [reflexivity |].
  cbn [peek skip_digits]. intros ->. reflexivity.
Qed.

Lemma scale_up_value (n : nat) :
  forall result,
    0 <= result -> result * pow10 n <= llong_max ->
    scale_up n result = result * pow10 n.
Proof.
  induction n as [| n IH]; intros r Hr Hmax.
  - cbn [scale_up]. change (pow10 0) with 1. lia.
  - cbn [scale_up]. rewrite pow10_S in *. pose proof (pow10_pos n).
    rewrite wrap64_small by (unfold llong_min; nia).
    rewrite IH; nia.
Qed.

Lemma round_and_sign_value (a sign : Z) :
  0 <= a <= 2147483648 -> sign = 1 \/ sign = -1 ->
  round_and_sign (a * 10) sign = a * sign.
Proof.
  intros Ha Hs. unfold round_and_sign.
  rewrite (wrap64_small (a * 10 + 5)) by (unfold llong_min, llong_max; lia).
  rewrite Z.quot_div_nonneg by lia.
  replace ((a * 10 + 5) / 10) with a
    by (apply Z.div_unique with (r := 5); lia).
  apply wrap64_small. unfold llong_min, llong_max. lia.
Qed.

(** ** What the integer and fraction texts spell *)

Lemma integer_text_digits (q : Z) :
  0 <= q < 1000 ->
  exists d ds,
    integer_text q = digit_char d :: map digit_char ds
    /\ Forall is_digit_value (d :: ds)
    /\ (List.length ds <= 2)%nat
    /\ msd_value ds d = q.
Proof.
  intros Hq. unfold integer_text.
  set (j := if 100 <=? q then 3%nat else if 10 <=? q then 2%nat else 1%nat).
  assert (Hj : (1 <= j <= 3)%nat /\ q < pow10 j).
  { subst j. destruct (100 <=? q) eqn:H100; [change (pow10 3) with 1000; lia |].
    apply Z.leb_gt in H100.
    destruct (10 <=? q) eqn:H10; [change (pow10 2) with 100; lia |].
    apply Z.leb_gt in H10. change (pow10 1) with 10. lia. }
  clearbody j. destruct Hj as [Hj Hlt].
  pose proof (lsd_digits_range j q) as Hrange.
  pose proof (lsd_digits_length j q) as Hlen.
  pose proof (lsd_value_digits j q ltac:(lia)) as Hval.
  rewrite Z.mod_small in Hval by lia.
  rewrite <- msd_value_rev in Hval.
  apply Forall_rev in Hrange. rewrite <- length_rev in Hlen.
  destruct (rev (lsd_digits j q)) as [| d ds]; [cbn in Hlen; lia |].
  exists d, ds. cbn [List.length] in Hlen.
  repeat split; try assumption; try lia.
Qed.

Lemma fraction_text_digits (a : Z) :
  0 <= a ->
  exists ds,
    fraction_text a
    = match ds with [] => [] | _ => "."%char :: map digit_char ds end
    /\ Forall is_digit_value ds
    /\ (List.length ds <= 7)%nat
    /\ msd_value ds 0 * pow10 (7 - List.length ds) = a mod 10000000
    /\ match ds with [] => True | _ => last ds 0 <> 0 end.
Proof.
  intros Ha. unfold fraction_text.
  pose proof (lsd_value_digits 7 a Ha) as Hval.
  change (pow10 7) with 10000000 in Hval.
  pose proof (drop_zeros_range _ (lsd_digits_range 7 a)) as Hrange.
  pose proof (drop_zeros_head (lsd_digits 7 a)) as Hhead.
  destruct (drop_zeros_split (lsd_digits 7 a)) as [z [Hsplit Hlen]].
  rewrite lsd_digits_length in Hlen.
  rewrite Hsplit, lsd_value_zeros in Hval.
  set (kept := drop_zeros (lsd_digits 7 a)) in *. clearbody kept.
  exists (rev kept).
  assert (Hz : (7 - List.length (rev kept))%nat = z) by (rewrite length_rev; lia).
  rewrite Hz, msd_value_rev, length_rev.
  repeat split.
  - destruct kept as [| d kept]; [reflexivity |].
    destruct (rev (d :: kept)) eqn:E; [| reflexivity].
    apply (f_equal (@List.length Z)) in E. rewrite length_rev in E. discriminate.
  - apply Forall_rev. assumption.
  - lia.
  - lia.
  - destruct kept as [| d kept]; [exact I |].
    cbn [rev]. destruct (rev kept ++ [d]) eqn:E.
    + destruct (rev kept); discriminate.
    + rewrite <- E, last_last. exact Hhead.
Qed.

(** ** Parsing of single literals *)

(** C3: the parser returns 50000000 for "5", -1000000 for "-0.1",
    1000000000 for "1e2", -1 for "-0.0000001" and 0 for "0"; the cursor
    is left just behind the literal, at the end of the text or at the
    separator that follows it. *)
Theorem parse_edge_cases :
  string_to_location_coordinate (cstr "5") = OK (50000000, [])
  /\ string_to_location_coordinate (cstr "-0.1") = OK (-1000000, [])
  /\ string_to_location_coordinate (cstr "1e2") = OK (1000000000, [])
  /\ string_to_location_coordinate (cstr "-0.0000001") = OK (-1, [])
  /\ string_to_location_coordinate (cstr "0") = OK (0, [])
  /\ (forall tail : cstring,
        string_to_location_coordinate (cstr "5" ++ cstr "," ++ tail)
          = OK (50000000, cstr "," ++ tail)
        /\ string_to_location_coordinate (cstr "-0.1" ++ cstr "," ++ tail)
          = OK (-1000000, cstr "," ++ tail)
        /\ string_to_location_coordinate (cstr "1e2" ++ cstr "," ++ tail)
          = OK (1000000000, cstr "," ++ tail)
        /\ string_to_location_coordinate (cstr "-0.0000001" ++ cstr "," ++ tail)
          = OK (-1, cstr "," ++ tail)
        /\ string_to_location_coordinate (cstr "0" ++ cstr "," ++ tail)
          = OK (0, cstr "," ++ tail)).
Proof.
  repeat split; vm_compute; reflexivity.
Qed.

(** C4: "1.23456785" and "1.2345679" both parse to 12345679: the eighth
    digit after the point, 5, rounds the seventh one up. *)
Theorem parse_rounds_half_up :
  string_to_location_coordinate (cstr "1.23456785") = OK (12345679, [])
  /\ string_to_location_coordinate (cstr "1.2345679") = OK (12345679, [])
  /\ string_to_location_coordinate (cstr "1.23456785")
     = string_to_location_coordinate (cstr "1.2345679").
Proof.
  repeat split; vm_compute; reflexivity.
Qed.

(** C6: "5e-2" parses, and to the value "0.05" parses to. *)
Theorem parse_exponent_form :
  string_to_location_coordinate (cstr "5e-2") = OK (500000, [])
  /\ string_to_location_coordinate (cstr "0.05") = OK (500000, [])
  /\ string_to_location_coordinate (cstr "5e-2")
     = string_to_location_coordinate (cstr "0.05").
Proof.
  repeat split; vm_compute; reflexivity.
Qed.

(** ** The cap on the digits before the decimal point *)

Lemma accumulate_digits_exhausts (ds rest : cstring) :
  forall acc max_digits,
    Forall (fun c => is_digit c = true) ds ->
    0 <= max_digits <= Z.of_nat (List.length ds) ->
    snd (accumulate_digits (ds ++ rest) acc max_digits) = 0.
Proof.
  induction ds as [| d ds IH]; intros acc max_digits Hds Hlen.
  - cbn in Hlen. assert (max_digits = 0) by lia. subst.
    destruct rest as [| c rest]; cbn; [reflexivity |].
    rewrite andb_false_r. reflexivity.
  - inversion Hds as [| ? ? Hd Hds']; subst.
    cbn [app accumulate_digits]. rewrite Hd. cbn [andb].
    destruct (0 <? max_digits) eqn:Hpos.
    + apply IH; [assumption |].
      apply Z.ltb_lt in Hpos. cbn [List.length] in Hlen. lia.
    + apply Z.ltb_ge in Hpos. cbn. lia.
Qed.

Lemma integer_part_too_long (full ds rest : cstring) :
  Forall (fun c => is_digit c = true) ds ->
  (11 <= List.length ds)%nat ->
  integer_part full (ds ++ rest) = Throw (wrong_format full).
Proof.
  intros Hds Hlen.
  destruct ds as [| d ds]; [cbn in Hlen; lia |].
  inversion Hds as [| ? ? Hd Hds']; subst.
  unfold integer_part. cbn [app peek next tl].
  assert (Hdot : is_char d "." = false).
  { unfold is_char. destruct (Ascii.eqb_spec d "."%char) as [-> |]; [discriminate | reflexivity]. }
  rewrite Hdot, Hd. cbn [negb].
  pose proof (accumulate_digits_exhausts ds rest (digit_value d) 10 Hds') as Hz.
  destruct (accumulate_digits (ds ++ rest) (digit_value d) 10) as [[str r] m].
  cbn [snd] in Hz. rewrite Hz; [reflexivity |].
  cbn [List.length] in Hlen. lia.
Qed.

(** C5: a text whose integer part has eleven or more digits, with or
    without a leading minus sign and whatever follows the digits (a
    fraction, an exponent), is rejected with [invalid_location]; so is
    "99999999999". *)
Theorem parse_rejects_eleven_digits (negative : bool) (ds rest : cstring)
  (Hds : Forall (fun c => is_digit c = true) ds)
  (Hlen : (11 <= List.length ds)%nat) :
  let text := (if negative then cstr "-" else []) ++ ds ++ rest in
  string_to_location_coordinate text = Throw (wrong_format text).
Proof.
  intros text. unfold string_to_location_coordinate.
  assert (Hsign : exists sign, read_sign text = (ds ++ rest, sign)).
  { subst text. destruct negative.
    - exists (-1). reflexivity.
    - exists 1. unfold read_sign. cbn [app].
      destruct ds as [| d ds]; [cbn in Hlen; lia |].
      inversion Hds as [| ? ? Hd _]; subst. cbn [app peek].
      assert (Hm : is_char d "-" = false).
      { unfold is_char. destruct (Ascii.eqb_spec d "-"%char) as [-> |]; [discriminate | reflexivity]. }
      rewrite Hm. reflexivity. }
  destruct Hsign as [sign ->].
  rewrite (integer_part_too_long text ds rest Hds Hlen). reflexivity.
Qed.

Lemma parse_rejects_eleven_digits_witness :
  string_to_location_coordinate (cstr "99999999999")
    = Throw (wrong_format (cstr "99999999999"))
  /\ string_to_location_coordinate (cstr "-12345678901e-9")
    = Throw (wrong_format (cstr "-12345678901e-9")).
Proof.
  split.
  - apply (parse_rejects_eleven_digits false (cstr "99999999999") []).
    + repeat constructor.
    + cbn. lia.
  - apply (parse_rejects_eleven_digits true (cstr "12345678901") (cstr "e-9")).
    + repeat constructor.
    + cbn. lia.
Defined.

(** ** Round trip *)

Lemma pow10_le (n m : nat) : (n <= m)%nat -> pow10 n <= pow10 m.
Proof. intros H. unfold pow10. apply Z.pow_le_mono_r; lia. Qed.

Lemma integer_part_digits (full rest : cstring) (d : Z) (ds : list Z) :
  Forall is_digit_value (d :: ds) ->
  (List.length ds <= 2)%nat ->
  is_digit (peek rest) = false ->
  integer_part full (digit_char d :: map digit_char ds ++ rest)
  = OK (rest, msd_value ds d).
Proof.
  intros Hds Hlen Hrest.
  inversion Hds as [| ? ? Hd Hds']; subst.
  destruct (digit_char_cases d Hd) as [Hdig [Hval [_ [Hdot _]]]].
  unfold integer_part. cbn [peek next tl]. rewrite Hdot, Hdig, Hval. cbn [negb].
  pose proof (pow10_le _ _ Hlen) as Hp. change (pow10 2) with 100 in Hp.
  pose proof (pow10_pos (List.length ds)) as Hp0.
  unfold is_digit_value in Hd.
  rewrite accumulate_digits_value; try assumption;
    try lia; try (unfold llong_max; nia).
  replace (10 - Z.of_nat (List.length ds) =? 0) with false
    by (symmetry; apply Z.eqb_neq; lia).
  reflexivity.
Qed.

Lemma fraction_part_digits (full : cstring) (q : Z) (ds : list Z) :
  Forall is_digit_value ds ->
  (List.length ds <= 7)%nat ->
  0 <= q < 1000 ->
  fraction_part full
    (match ds with [] => [] | _ => "."%char :: map digit_char ds end) q 8
  = OK ([], msd_value ds q, 8 - Z.of_nat (List.length ds)).
Proof.
  intros Hds Hlen Hq.
  destruct ds as [| d ds]; [reflexivity |].
  set (F := d :: ds) in *. clearbody F.
  unfold fraction_part. cbn [peek next tl].
  change (is_char "." ".") with true. cbv iota.
  rewrite <- (app_nil_r (map digit_char F)).
  pose proof (pow10_le _ _ Hlen) as Hp. change (pow10 7) with 10000000 in Hp.
  pose proof (pow10_pos (List.length F)) as Hp0.
  rewrite significant_digits_value; try assumption;
    try reflexivity; try lia; try (unfold llong_max; nia).
Qed.

Lemma format_parse_int32 (v : Z) :
  int32_min < v <= int32_max ->
  string_to_location_coordinate (append_location_coordinate_to_string v)
  = OK (v, []).
Proof.
  intros Hv. rewrite format_text by assumption.
  unfold int32_min, int32_max in Hv.
  set (a := Z.abs v). assert (Ha : 0 <= a <= 2147483647) by lia.
  set (q := a / 10000000).
  assert (Hq : 0 <= q < 1000).
  { subst q. split; [apply Z.div_pos; lia | apply Z.div_lt_upper_bound; lia]. }
  destruct (integer_text_digits q Hq) as [d [ds [HI [HrI [HlenI HvalI]]]]].
  destruct (fraction_text_digits a ltac:(lia)) as [F [HF [HrF [HlenF [HvalF _]]]]].
  match type of HF with _ = ?f => set (frac := f) in * end.
  rewrite HI, HF.
  set (sign := if v <? 0 then -1 else 1).
  match goal with
  | |- string_to_location_coordinate ?t = _ => set (text := t)
  end.
  assert (Hsign : read_sign text
                  = (digit_char d :: map digit_char ds ++ frac, sign)).
  { subst text sign. destruct (v <? 0); [reflexivity |].
    unfold read_sign. cbn [app peek].
    inversion HrI as [| ? ? Hd _]; subst.
    destruct (digit_char_cases d Hd) as [_ [_ [_ [_ Hminus]]]].
    rewrite Hminus. reflexivity. }
  assert (Hfrac : is_digit (peek frac) = false).
  { subst frac. destruct F; reflexivity. }
  unfold string_to_location_coordinate. rewrite Hsign.
  rewrite (integer_part_digits text frac d ds HrI HlenI Hfrac).
  cbn [bind]. rewrite HvalI.
  subst frac. rewrite (fraction_part_digits text q F HrF HlenF Hq).
  cbn [bind].
  change (exponent_part text [] (8 - Z.of_nat (List.length F)))
    with (OK (@nil ascii, 8 - Z.of_nat (List.length F))).
  cbn [bind].
  assert (Hscaled : apply_scale (msd_value F q) (8 - Z.of_nat (List.length F))
                    = a * 10).
  { unfold apply_scale.
    replace (8 - Z.of_nat (List.length F) <? 0) with false
      by (symmetry; apply Z.ltb_ge; lia).
    replace (Z.to_nat (8 - Z.of_nat (List.length F)))
      with (S (7 - List.length F)) by lia.
    pose proof (msd_value_bounds F HrF) as Hb.
    pose proof (pow10_add (List.length F) (7 - List.length F)) as Hadd.
    replace (List.length F + (7 - List.length F))%nat with 7%nat in Hadd by lia.
    change (pow10 7) with 10000000 in Hadd.
    pose proof (pow10_pos (List.length F)) as Hp1.
    pose proof (pow10_pos (7 - List.length F)) as Hp2.
    pose proof (Z.div_mod a 10000000 ltac:(lia)) as Hdm. fold q in Hdm.
    rewrite msd_value_acc.
    assert (Hprod : (q * pow10 (List.length F) + msd_value F 0)
                      * pow10 (S (7 - List.length F)) = a * 10).
    { rewrite pow10_S. nia. }
    rewrite scale_up_value; [exact Hprod | nia |].
    rewrite Hprod. unfold llong_max. lia. }
  rewrite Hscaled.
  rewrite round_and_sign_value by (subst sign; destruct (v <? 0); lia).
  assert (Hres : a * sign = v).
  { subst a sign. destruct (v <? 0) eqn:E;
      [apply Z.ltb_lt in E | apply Z.ltb_ge in E]; lia. }
  rewrite Hres. unfold int32_max, int32_min.
  replace (2147483647 <? v) with false by (symmetry; apply Z.ltb_ge; lia).
  replace (v <? -2147483648) with false by (symmetry; apply Z.ltb_ge; lia).
  reflexivity.
Qed.

(** X1: every [int32_t] other than the least one is formatted to a text
    that the parser reads completely, giving the value back. *)
Theorem format_parse_all_but_least (v : Z) (Hv : int32_min < v <= int32_max) :
  string_to_location_coordinate (append_location_coordinate_to_string v)
  = OK (v, []).
Proof. exact (format_parse_int32 v Hv). Qed.

Lemma format_parse_all_but_least_witness :
  string_to_location_coordinate (append_location_coordinate_to_string 2147483647)
  = OK (2147483647, []).
Proof.
  apply (format_parse_all_but_least 2147483647).
  unfold int32_min, int32_max. lia.
Defined.

(** C1: a value inside the valid range of the x axis, or of the y axis,
    is formatted to a text that the parser reads completely, giving the
    value back. *)
Theorem format_parse_round_trip (v : Z)
  (Hv : -1800000000 <= v <= 1800000000 \/ -900000000 <= v <= 900000000) :
  string_to_location_coordinate (append_location_coordinate_to_string v)
  = OK (v, []).
Proof.
  apply format_parse_int32. unfold int32_min, int32_max. lia.
Qed.

Lemma format_parse_round_trip_witness :
  string_to_location_coordinate
    (append_location_coordinate_to_string (-1234567890))
  = OK (-1234567890, [])
  /\ string_to_location_coordinate
       (append_location_coordinate_to_string 900000000)
     = OK (900000000, []).
Proof.
  split.
  - apply (format_parse_round_trip (-1234567890)). left. lia.
  - apply (format_parse_round_trip 900000000). right. lia.
Defined.

(** ** Minimal output of the formatter *)

Lemma digits_no_point (ds : list Z) :
  Forall is_digit_value ds -> has_decimal_point (map digit_char ds) = false.
Proof.
  induction 1 as [| d ds Hd _ IH]; [reflexivity |].
  unfold has_decimal_point in *. cbn [map existsb].
  destruct (digit_char_cases d Hd) as [_ [_ [_ [Hdot _]]]].
  rewrite Hdot, IH. reflexivity.
Qed.

Lemma msd_value_last_nonzero (ds : list Z) :
  Forall is_digit_value ds -> ds <> [] -> last ds 0 <> 0 ->
  msd_value ds 0 mod 10 <> 0.
Proof.
  intros Hds Hne Hlast.
  destruct (exists_last Hne) as [ds' [l ->]].
  rewrite last_last in Hlast.
  apply Forall_app in Hds. destruct Hds as [_ Hl].
  inversion Hl as [| ? ? Hd _]; subst. unfold is_digit_value in Hd.
  rewrite msd_value_app.
  change (msd_value [l] (msd_value ds' 0)) with (msd_value ds' 0 * 10 + l).
  rewrite Z.add_comm, Z.mod_add by lia. rewrite Z.mod_small; lia.
Qed.

(** X2: for every [int32_t] other than the least one, the text of the
    formatter holds a decimal point exactly when the value is no multiple
    of 10000000, and then it ends in a digit from 1 to 9. *)
Lemma formatter_minimal (v : Z) :
  int32_min < v <= int32_max ->
  (has_decimal_point (append_location_coordinate_to_string v) = true
   <-> ~ (10000000 | v))
  /\ (has_decimal_point (append_location_coordinate_to_string v) = true ->
      ends_in_nonzero_digit (append_location_coordinate_to_string v) = true).
Proof.
  intros Hv. rewrite format_text by assumption.
  unfold int32_min, int32_max in Hv.
  set (a := Z.abs v). assert (Ha : 0 <= a <= 2147483647) by lia.
  assert (Hdiv : (10000000 | v) <-> a mod 10000000 = 0).
  { subst a. rewrite <- Z.divide_abs_r. symmetry. apply Z.mod_divide. lia. }
  set (q := a / 10000000).
  assert (Hq : 0 <= q < 1000).
  { subst q. split; [apply Z.div_pos; lia | apply Z.div_lt_upper_bound; lia]. }
  destruct (integer_text_digits q Hq) as [d [ds [HI [HrI _]]]].
  destruct (fraction_text_digits a ltac:(lia))
    as [F [HF [HrF [HlenF [HvalF HlastF]]]]].
  rewrite HI, HF.
  change (digit_char d :: map digit_char ds) with (map digit_char (d :: ds)).
  set (sgn := if v <? 0 then ["-"%char] else []).
  assert (Hsgn : has_decimal_point sgn = false)
    by (subst sgn; destruct (v <? 0); reflexivity).
  pose proof (digits_no_point _ HrI) as HnoI.
  unfold has_decimal_point in *.
  rewrite !existsb_app, Hsgn, HnoI. cbn [orb].
  destruct F as [| f F].
  - cbn [existsb]. split; [| discriminate].
    split; [discriminate |]. intros Hn. exfalso. apply Hn, Hdiv.
    rewrite <- HvalF. reflexivity.
  - set (G := f :: F) in *.
    assert (HG : G <> []) by (subst G; discriminate).
    cbn [existsb]. change (is_char "." ".") with true. cbn [orb].
    split.
    + split; [| reflexivity]. intros _ Hd. apply Hdiv in Hd.
      pose proof (msd_value_last_nonzero G HrF HG HlastF) as Hnz.
      pose proof (msd_value_bounds G HrF) as Hb.
      pose proof (pow10_pos (7 - List.length G)) as Hp.
      rewrite <- HvalF in Hd. apply Hnz.
      assert (msd_value G 0 = 0) by nia.
      replace (msd_value G 0) with 0 by lia. reflexivity.
    + intros _. destruct (exists_last HG) as [G' [l HGl]].
      rewrite HGl in HlastF, HrF |- *. rewrite last_last in HlastF.
      apply Forall_app in HrF. destruct HrF as [_ Hl].
      inversion Hl as [| ? ? Hdl _]; subst.
      destruct (digit_char_cases l Hdl) as [Hdig [_ [Hzero _]]].
      unfold ends_in_nonzero_digit.
      rewrite map_app. cbn [map].
      rewrite app_comm_cons, !app_assoc, last_last.
      rewrite Hdig, Hzero.
      replace (l =? 0) with false by (symmetry; apply Z.eqb_neq; exact HlastF).
      reflexivity.
Qed.

Lemma formatter_minimal_witness :
  (has_decimal_point (append_location_coordinate_to_string (-2147483647)) = true
   <-> ~ (10000000 | -2147483647))
  /\ (has_decimal_point (append_location_coordinate_to_string (-2147483647)) = true ->
      ends_in_nonzero_digit (append_location_coordinate_to_string (-2147483647)) = true).
Proof.
  apply (formatter_minimal (-2147483647)). unfold int32_min, int32_max. lia.
Defined.

(** C2: the formatter at the least [int32_t], -2147483648, which the
    parser returns for "-214.7483648" and which is no multiple of
    10000000: the negation overflows, the digit loop stores characters
    that are no digits, and the text written holds a decimal point while
    its last character is an opening parenthesis, not a digit from 1 to
    9. *)
Theorem format_int32_min_not_minimal :
  string_to_location_coordinate (cstr "-214.7483648") = OK (int32_min, [])
  /\ append_location_coordinate_to_string int32_min = cstr "-0../,),(-*,("
  /\ ~ (10000000 | int32_min)
  /\ has_decimal_point (append_location_coordinate_to_string int32_min) = true
  /\ ends_in_nonzero_digit (append_location_coordinate_to_string int32_min)
     = false.
Proof.
  repeat split; try (vm_compute; reflexivity).
  intros [k Hk]. unfold int32_min in Hk. lia.
Qed.

(** ** Order of Locations *)

(** C8: [a < b] holds exactly when [a.x() < b.x()], or [a.x() == b.x()]
    and [a.y() < b.y()]; so (1,5) < (1,6) < (2,0), and (1,6) is not less
    than (1,5). *)
Theorem Location_lt_lexicographic :
  (forall a b : Location,
      Location_lt a b = true <-> (x a < x b \/ (x a = x b /\ y a < y b)))
  /\ Location_lt (make_Location 1 5) (make_Location 1 6) = true
  /\ Location_lt (make_Location 1 6) (make_Location 2 0) = true
  /\ Location_lt (make_Location 1 6) (make_Location 1 5) = false.
Proof.
  split; [| repeat split; reflexivity].
  intros a b. unfold Location_lt.
  rewrite orb_true_iff, andb_true_iff, Z.eqb_eq, !Z.ltb_lt. tauto.
Qed.

(** ** Validity and the degree getters *)

(** C7: with [y] inside the latitude range, [x = 1800000000] is valid and
    [x = 1800000001] is not; [lon] throws [invalid_location] exactly when
    [valid] is false and returns [x / 10000000] (in [double]) otherwise;
    [lon_without_check] returns that quotient whatever [valid] says. *)
Theorem lon_valid_boundary (l : Location)
  (Hy : -900000000 <= y l <= 900000000) :
  (x l = 1800000000 -> valid l = true)
  /\ (x l = 1800000001 -> valid l = false)
  /\ (valid l = false <-> lon l = Throw invalid_location_error)
  /\ (valid l = true ->
      lon l = OK (PrimFloat.div (int32_to_double (x l))
                                (int32_to_double 10000000)))
  /\ lon_without_check l
     = PrimFloat.div (int32_to_double (x l)) (int32_to_double 10000000)
  /\ (x l = 1800000000 -> lon l = OK 180%float)
  /\ (x l = 1800000001 ->
      lon l = Throw invalid_location_error
      /\ lon_without_check l = 0x1.680000035afe5p+7%float).
Proof.
  destruct l as [lx ly]. unfold x, y in *. cbn [m_x m_y] in *.
  assert (Hv : valid (make_Location lx ly)
               = (-1800000000 <=? lx) && (lx <=? 1800000000)).
  { unfold valid, coordinate_precision. cbn [m_x m_y].
    replace (-90 * 10000000 <=? ly) with true by (symmetry; apply Z.leb_le; lia).
    replace (ly <=? 90 * 10000000) with true by (symmetry; apply Z.leb_le; lia).
    now rewrite !andb_true_r. }
  unfold lon, lon_without_check, fix_to_double, coordinate_precision.
  cbn [m_x m_y]. rewrite Hv.
  repeat split.
  - intros ->. reflexivity.
  - intros ->. reflexivity.
  - intros ->. reflexivity.
  - destruct ((-1800000000 <=? lx) && (lx <=? 1800000000)); [discriminate | reflexivity].
  - intros ->. reflexivity.
  - intros ->. vm_compute. reflexivity.
  - subst lx. reflexivity.
  - subst lx. vm_compute. reflexivity.
Qed.

Lemma lon_valid_boundary_witness :
  (x (make_Location 1800000000 0) = 1800000000 ->
     valid (make_Location 1800000000 0) = true)
  /\ lon (make_Location 1800000001 0) = Throw invalid_location_error.
Proof.
  split.
  - apply (lon_valid_boundary (make_Location 1800000000 0)).
    unfold y; cbn; lia.
  - apply (lon_valid_boundary (make_Location 1800000001 0));
      [unfold y; cbn; lia | reflexivity].
Defined.

(** ** The setters that take text *)


Lemma set_lat_parser_failure (self : Location) (str : cstring) (e : exception) :
  string_to_location_coordinate str = Throw e ->
  set_lat self str = (self, Throw e).
Proof. intros H. unfold set_lat. rewrite H. reflexivity. Qed.


Lemma set_lat_trailing_characters (self : Location) (str data : cstring) (v : Z) :
  string_to_location_coordinate str = OK (v, data) ->
  is_char_nul (peek data) = false ->
  set_lat self str = (set_y self v, Throw (characters_after data)).
Proof. intros H Hn. unfold set_lat. rewrite H, Hn. reflexivity. Qed.



(** C9: on the text "5x" the calls [set_lon] and [set_lat] of the
    Location (1,2) throw [invalid_location] for the characters after the
    coordinate, and the axis set holds 50000000 by then, not the value it
    had before the call. *)
Theorem set_lon_failure_overwrites_axis :
  set_lon (make_Location 1 2) (cstr "5x")
    = (make_Location 50000000 2, Throw (characters_after (cstr "x")))
  /\ set_lat (make_Location 1 2) (cstr "5x")
    = (make_Location 1 50000000, Throw (characters_after (cstr "x"))).
Proof.
  split; vm_compute; reflexivity.
Qed.

(** ** [str_to_int] *)

Lemma get_max_int_le_max (T : int_type) :
  get_max_int T <= numeric_limits_max T.
Proof. destruct T; vm_compute; congruence. Qed.

Lemma get_max_int_value (T : int_type) :
  get_max_int T = if is_signed T then 2 ^ (bits T - 1) - 1
                  else if bits T =? 64 then 2 ^ 63 - 1 else 2 ^ bits T - 1.
Proof. destruct T; reflexivity. Qed.

Lemma static_cast_small (T : int_type) (value : Z) :
  0 <= value < get_max_int T -> static_cast T value = value.
Proof.
  rewrite get_max_int_value. unfold static_cast.
  destruct (is_signed T) eqn:Hs; intros H.
  - apply wrap_small; [destruct T; cbn; lia |].
    assert (0 < 2 ^ (bits T - 1)) by (apply Z.pow_pos_nonneg; destruct T; cbn; lia).
    lia.
  - apply Z.mod_small.
    destruct (bits T =? 64) eqn:Hb.
    + apply Z.eqb_eq in Hb. rewrite Hb. change (2 ^ 64) with 18446744073709551616.
      change (2 ^ 63) with 9223372036854775808 in H. lia.
    + lia.
Qed.

(** C10: [str_to_int<T>] returns the number [strtoll] parsed when
    [strtoll] reports no error, nothing follows the number, and the number
    is at least 0 and below [get_max_int<T>()], a bound that is never
    above the maximum of [T]; in every other case, and so whenever one of
    these conditions fails with the maximum of [T] as the bound, it
    returns 0.  The decimal spelling of the maximum of [T] itself gives
    0. *)
Theorem str_to_int_returns_value_or_zero (T : int_type) (str : cstring) :
  let r := strtoll str in
  let value := strtoll_value r in
  let complete := is_char_nul (peek (strtoll_end r)) in
  str_to_int T str
    = (if (strtoll_errno r =? 0) && complete
          && (0 <=? value) && (value <? get_max_int T)
       then value else 0)
  /\ get_max_int T <= numeric_limits_max T
  /\ (~ (strtoll_errno r = 0 /\ complete = true
         /\ 0 <= value < numeric_limits_max T) ->
      str_to_int T str = 0)
  /\ (str_to_int T str <> 0 ->
      strtoll_errno r = 0 /\ complete = true
      /\ 0 <= value < numeric_limits_max T /\ str_to_int T str = value)
  /\ str_to_int T (decimal (numeric_limits_max T)) = 0
  /\ str_to_int T (decimal (get_max_int T - 1)) = get_max_int T - 1.
Proof.
  intros r value complete.
  pose proof (get_max_int_le_max T) as Hmax.
  assert (Hcode : str_to_int T str
                  = (if (strtoll_errno r =? 0) && complete
                        && (0 <=? value) && (value <? get_max_int T)
                     then value else 0)).
  { unfold str_to_int. fold r. fold value. fold complete.
    destruct (strtoll_errno r =? 0); cbn [negb orb andb]; [| reflexivity].
    destruct complete; cbn [negb orb andb].
    - rewrite orb_false_r.
      destruct (value <? 0) eqn:Hneg; cbn [orb].
      + apply Z.ltb_lt in Hneg.
        replace (0 <=? value) with false by (symmetry; apply Z.leb_gt; lia).
        reflexivity.
      + apply Z.ltb_ge in Hneg.
        replace (0 <=? value) with true by (symmetry; apply Z.leb_le; lia).
        cbn [andb].
        destruct (get_max_int T <=? value) eqn:Hge.
        * apply Z.leb_le in Hge.
          replace (value <? get_max_int T) with false
            by (symmetry; apply Z.ltb_ge; lia).
          reflexivity.
        * apply Z.leb_gt in Hge.
          replace (value <? get_max_int T) with true
            by (symmetry; apply Z.ltb_lt; lia).
          apply static_cast_small. lia.
    - rewrite orb_true_r. reflexivity. }
  split; [exact Hcode |].
  split; [exact Hmax |].
  split; [| split; [| split]].
  - intros Hnot. rewrite Hcode.
    destruct (strtoll_errno r =? 0) eqn:He; [| reflexivity].
    destruct complete; [| reflexivity].
    destruct (0 <=? value) eqn:H0; [| reflexivity].
    destruct (value <? get_max_int T) eqn:H1; [| reflexivity].
    exfalso. apply Hnot.
    apply Z.eqb_eq in He. apply Z.leb_le in H0. apply Z.ltb_lt in H1.
    repeat split; try assumption; lia.
  - intros Hnz. rewrite Hcode in Hnz |- *.
    destruct (strtoll_errno r =? 0) eqn:He; [| contradiction].
    destruct complete; [| contradiction].
    destruct (0 <=? value) eqn:H0; [| contradiction].
    destruct (value <? get_max_int T) eqn:H1; [| contradiction].
    apply Z.eqb_eq in He. apply Z.leb_le in H0. apply Z.ltb_lt in H1.
    cbn [andb]. repeat split; try assumption; lia.
  - destruct T; vm_compute; reflexivity.
  - destruct T; vm_compute; reflexivity.
Qed.

(** * Further properties *)

(** ** The parser on plain decimals *)

Lemma continues_literal_false (c : ascii) :
  continues_literal c = false ->
  is_digit c = false /\ is_char c "." = false
  /\ is_char c "e" = false /\ is_char c "E" = false.
Proof.
  unfold continues_literal. intros H.
  apply orb_false_iff in H. destruct H as [H HE].
  apply orb_false_iff in H. destruct H as [H He].
  apply orb_false_iff in H. destruct H as [Hd Hp]. auto.
Qed.

Lemma peek_digits_app (ds : list Z) (rest : cstring) :
  Forall is_digit_value ds -> ds <> [] ->
  is_digit (peek (map digit_char ds ++ rest)) = true
  /\ is_char (peek (map digit_char ds ++ rest)) "." = false
  /\ is_char (peek (map digit_char ds ++ rest)) "-" = false.
Proof.
  intros Hds Hne. destruct ds as [| d ds]; [contradiction |].
  inversion Hds as [| ? ? Hd _]; subst. cbn [map app peek].
  destruct (digit_char_cases d Hd) as [H1 [_ [_ [H2 H3]]]]. auto.
Qed.

Lemma significant_digits_take (ds : list Z) (rest : cstring) :
  forall result scale,
    Forall is_digit_value ds ->
    is_digit (peek rest) = false \/ Z.of_nat (List.length ds) = scale ->
    0 <= result ->
    (result + 1) * pow10 (List.length ds) <= llong_max ->
    Z.of_nat (List.length ds) <= scale ->
    significant_digits (map digit_char ds ++ rest) result scale
    = (rest, msd_value ds result, scale - Z.of_nat (List.length ds)).
Proof.
  induction ds as [| d ds IH]; intros acc m Hds Hrest Hacc Hmax Hm.
  - cbn [map app msd_value fold_left List.length] in *. rewrite Z.sub_0_r.
    destruct rest as [| c rest]; [reflexivity |].
    cbn [significant_digits]. destruct Hrest as [Hrest | Hrest].
    + cbn [peek] in Hrest. rewrite Hrest, andb_false_r. reflexivity.
    + subst m. reflexivity.
  - inversion Hds as [| ? ? Hd Hds']; subst.
    destruct (digit_char_cases d Hd) as [Hdig [Hval _]].
    cbn [map app significant_digits List.length] in *.
    rewrite pow10_S in Hmax. pose proof (pow10_pos (List.length ds)) as Hp.
    unfold is_digit_value in Hd.
    rewrite Hdig, Hval.
    replace (0 <? m) with true by (symmetry; apply Z.ltb_lt; lia).
    cbn [andb].
    rewrite wrap64_small by (unfold llong_min; nia).
    rewrite IH; try assumption; try nia; try lia.
    + f_equal. lia.
    + destruct Hrest as [Hrest | Hrest]; [left; assumption | right; lia].
Qed.

Lemma skip_digits_count (ds : list Z) (rest : cstring) :
  forall max_digits,
    Forall is_digit_value ds ->
    is_digit (peek rest) = false \/ Z.of_nat (List.length ds) = max_digits ->
    Z.of_nat (List.length ds) <= max_digits ->
    skip_digits (map digit_char ds ++ rest) max_digits
    = (rest, max_digits - Z.of_nat (List.length ds)).
Proof.
  induction ds as [| d ds IH]; intros m Hds Hrest Hm.
  - cbn [map app List.length] in *. rewrite Z.sub_0_r.
    destruct rest as [| c rest]; [reflexivity |].
    cbn [skip_digits]. destruct Hrest as [Hrest | Hrest].
    + cbn [peek] in Hrest. rewrite Hrest. reflexivity.
    + subst m. rewrite andb_false_r. reflexivity.
  - inversion Hds as [| ? ? Hd Hds']; subst.
    destruct (digit_char_cases d Hd) as [Hdig _].
    cbn [map app skip_digits List.length] in *.
    rewrite Hdig.
    replace (0 <? m) with true by (symmetry; apply Z.ltb_lt; lia).
    cbn [andb]. rewrite IH; try assumption; try lia.
    + f_equal. lia.
    + destruct Hrest as [Hrest | Hrest]; [left; assumption | right; lia].
Qed.

Lemma integer_part_value (full tail : cstring) (I : list Z) :
  Forall is_digit_value I ->
  (1 <= List.length I <= 10)%nat ->
  is_digit (peek tail) = false ->
  integer_part full (map digit_char I ++ tail) = OK (tail, msd_value I 0).
Proof.
  intros HI Hlen Htail.
  destruct I as [| d ds]; [cbn in Hlen; lia |].
  inversion HI as [| ? ? Hd Hds]; subst.
  destruct (digit_char_cases d Hd) as [Hdig [Hval [_ [Hdot _]]]].
  unfold integer_part. cbn [map app peek next tl].
  rewrite Hdot, Hdig, Hval. cbn [negb].
  cbn [List.length] in Hlen.
  assert (Hp : pow10 (List.length ds) <= pow10 9) by (apply pow10_le; lia).
  change (pow10 9) with 1000000000 in Hp.
  pose proof (pow10_pos (List.length ds)) as Hp0.
  unfold is_digit_value in Hd.
  rewrite accumulate_digits_value; try assumption;
    try lia; try (unfold llong_max; nia).
  replace (10 - Z.of_nat (List.length ds) =? 0) with false
    by (symmetry; apply Z.eqb_neq; lia).
  reflexivity.
Qed.

Lemma integer_part_absent (full tail : cstring) (f : Z) (F : list Z) :
  is_digit_value f ->
  integer_part full ("."%char :: map digit_char (f :: F) ++ tail)
  = OK ("."%char :: map digit_char (f :: F) ++ tail, 0).
Proof.
  intros Hf. destruct (digit_char_cases f Hf) as [Hdig _].
  unfold integer_part. cbn [map app peek next tl].
  change (is_char "." ".") with true. cbn [negb]. rewrite Hdig. reflexivity.
Qed.

Lemma firstn_skipn_lengths (F : list Z) :
  (List.length F <= 27)%nat ->
  (List.length (firstn 8 F) <= 8)%nat
  /\ (List.length (skipn 8 F) <= 19)%nat
  /\ (List.length (skipn 8 F) = 0%nat \/ List.length (firstn 8 F) = 8%nat).
Proof.
  intros H. rewrite length_firstn, length_skipn. lia.
Qed.

Lemma fraction_part_value (full rest : cstring) (q : Z) (F : list Z) :
  Forall is_digit_value F ->
  (List.length F <= 27)%nat ->
  0 <= q < pow10 10 ->
  is_digit (peek rest) = false -> is_char (peek rest) "." = false ->
  fraction_part full
    (match F with [] => [] | _ => "."%char :: map digit_char F end ++ rest) q 8
  = OK (rest, msd_value (firstn 8 F) q,
        8 - Z.of_nat (List.length (firstn 8 F))).
Proof.
  intros HF Hlen Hq Hrest Hdot.
  destruct F as [| f F'].
  - cbn [app firstn List.length]. unfold fraction_part. rewrite Hdot. reflexivity.
  - cbv iota. set (F := f :: F') in *. clearbody F.
    destruct (firstn_skipn_lengths F Hlen) as [Hl1 [Hl2 Hl3]].
    pose proof (firstn_skipn 8 F) as Hsplit.
    assert (Hused : Forall is_digit_value (firstn 8 F)).
    { rewrite <- Hsplit in HF. apply Forall_app in HF. tauto. }
    assert (Hextra : Forall is_digit_value (skipn 8 F)).
    { rewrite <- Hsplit in HF. apply Forall_app in HF. tauto. }
    set (used := firstn 8 F) in *. set (extra := skipn 8 F) in *.
    unfold fraction_part. cbn [app peek next tl].
    change (is_char "." ".") with true. cbv iota.
    rewrite <- Hsplit at 1. rewrite map_app, <- app_assoc.
    change (pow10 10) with 10000000000 in Hq.
    assert (Hp : pow10 (List.length used) <= pow10 8) by (apply pow10_le; lia).
    change (pow10 8) with 100000000 in Hp.
    pose proof (pow10_pos (List.length used)) as Hp0.
    rewrite significant_digits_take; try assumption;
      try lia; try (unfold llong_max; nia).
    + rewrite skip_digits_count; try assumption; try lia; [| left; assumption].
      replace (20 - Z.of_nat (List.length extra) =? 0) with false
        by (symmetry; apply Z.eqb_neq; lia).
      reflexivity.
    + destruct Hl3 as [Hl3 | Hl3]; [| right; lia].
      left. destruct extra; [assumption | discriminate].
Qed.

Lemma exponent_part_absent (full rest : cstring) (scale : Z) :
  is_char (peek rest) "e" = false -> is_char (peek rest) "E" = false ->
  exponent_part full rest scale = OK (rest, scale).
Proof. intros He HE. unfold exponent_part. rewrite He, HE. reflexivity. Qed.

Lemma round_and_sign_general (r sign : Z) :
  0 <= r <= 1000000000000000000 -> sign = 1 \/ sign = -1 ->
  round_and_sign r sign = sign * ((r + 5) / 10).
Proof.
  intros Hr Hs. unfold round_and_sign.
  rewrite (wrap64_small (r + 5)) by (unfold llong_min, llong_max; lia).
  rewrite Z.quot_div_nonneg by lia.
  assert (0 <= (r + 5) / 10 <= r + 5).
  { split; [apply Z.div_pos; lia |].
    apply Z.div_le_upper_bound; lia. }
  rewrite wrap64_small by (unfold llong_min, llong_max; lia). lia.
Qed.

Lemma read_sign_text (negative : bool) (body : cstring) :
  is_char (peek body) "-" = false ->
  read_sign ((if negative then ["-"%char] else []) ++ body)
  = (body, if negative then -1 else 1).
Proof.
  intros H. destruct negative; [reflexivity |].
  unfold read_sign. cbn [app]. rewrite H. reflexivity.
Qed.

Lemma plain_decimal_parse (negative : bool) (I F : list Z) (rest : cstring)
  (HI : Forall is_digit_value I) (HF : Forall is_digit_value F)
  (HlenI : (List.length I <= 10)%nat) (HlenF : (List.length F <= 27)%nat)
  (Hdigit : I <> [] \/ F <> [])
  (Hrest : continues_literal (peek rest) = false) :
  let text := decimal_text negative I F ++ rest in
  let v := (if negative then -1 else 1) * decimal_scaled I F in
  string_to_location_coordinate text
  = if (int32_max <? v) || (v <? int32_min)
    then Throw (wrong_format text) else OK (v, rest).
Proof.
  intros text v.
  destruct (continues_literal_false _ Hrest) as [Hrd [Hrp [Hre HrE]]].
  set (frac := match F with [] => [] | _ => "."%char :: map digit_char F end).
  assert (Htext : text = (if negative then ["-"%char] else [])
                           ++ map digit_char I ++ frac ++ rest).
  { subst text frac. unfold decimal_text. now rewrite <- !app_assoc. }
  assert (Hfrac : is_digit (peek (frac ++ rest)) = false).
  { subst frac. destruct F; [exact Hrd | reflexivity]. }
  assert (Hminus : is_char (peek (map digit_char I ++ frac ++ rest)) "-" = false).
  { destruct I as [| d I'].
    - destruct Hdigit as [Hd | Hd]; [contradiction |].
      subst frac. destruct F; [contradiction | reflexivity].
    - apply peek_digits_app; [assumption | discriminate]. }
  assert (Hint : integer_part text (map digit_char I ++ frac ++ rest)
                 = OK (frac ++ rest, msd_value I 0)).
  { destruct I as [| d I'].
    - destruct Hdigit as [Hd | Hd]; [contradiction |].
      subst frac. destruct F as [| f F']; [contradiction |].
      inversion HF as [| ? ? Hf _]; subst.
      cbn [map app]. apply (integer_part_absent text rest f F' Hf).
    - apply integer_part_value; try assumption. cbn [List.length] in *. lia. }
  pose proof (msd_value_bounds I HI) as HbI.
  assert (HpI : pow10 (List.length I) <= pow10 10) by (apply pow10_le; lia).
  unfold string_to_location_coordinate.
  rewrite Htext at 1. rewrite (read_sign_text negative _ Hminus).
  rewrite Hint. cbn [bind].
  subst frac.
  rewrite (fraction_part_value text rest (msd_value I 0) F HF HlenF
             ltac:(lia) Hrd Hrp).
  cbn [bind].
  rewrite (exponent_part_absent text rest _ Hre HrE). cbn [bind].
  destruct (firstn_skipn_lengths F HlenF) as [Hl1 _].
  set (used := firstn 8 F) in *.
  assert (Hused : Forall is_digit_value used).
  { subst used. pose proof (firstn_skipn 8 F) as Hs.
    rewrite <- Hs in HF. apply Forall_app in HF. tauto. }
  rewrite <- msd_value_app.
  pose proof (msd_value_bounds (I ++ used)
                ltac:(apply Forall_app; split; assumption)) as Hb.
  rewrite length_app, pow10_add in Hb.
  set (N := msd_value (I ++ used) 0) in *.
  pose proof (pow10_add (List.length used) (8 - List.length used)) as Hadd.
  replace (List.length used + (8 - List.length used))%nat with 8%nat in Hadd by lia.
  change (pow10 8) with 100000000 in Hadd.
  change (pow10 10) with 10000000000 in HpI.
  pose proof (pow10_pos (List.length used)) as Hp1.
  pose proof (pow10_pos (8 - List.length used)) as Hp2.
  pose proof (pow10_pos (List.length I)) as Hp3.
  assert (Hbound : 0 <= N * pow10 (8 - List.length used) < 1000000000000000000).
  { split; [nia |].
    apply Z.lt_le_trans
      with (pow10 (List.length I) * pow10 (List.length used)
              * pow10 (8 - List.length used)); [nia |].
    rewrite <- Z.mul_assoc, <- Hadd. nia. }
  assert (Hscaled : apply_scale N (8 - Z.of_nat (List.length used))
                    = N * pow10 (8 - List.length used)).
  { unfold apply_scale.
    replace (8 - Z.of_nat (List.length used) <? 0) with false
      by (symmetry; apply Z.ltb_ge; lia).
    replace (Z.to_nat (8 - Z.of_nat (List.length used)))
      with (8 - List.length used)%nat by lia.
    apply scale_up_value; [lia | unfold llong_max; lia]. }
  rewrite Hscaled.
  rewrite round_and_sign_general by (try lia; destruct negative; auto).
  reflexivity.
Qed.

(** X5: the parser on a decimal without exponent of at most ten digits before
    the point and at most twenty-seven after it: the value is the number of
    the text scaled by 10000000 and rounded half up on the eighth digit after
    the point, the later digits being dropped; the cursor is left behind the
    last digit; a value outside [int32_t] is an error. *)
Theorem parse_plain_decimal (negative : bool) (I F : list Z) (rest : cstring)
  (HI : Forall is_digit_value I) (HF : Forall is_digit_value F)
  (HlenI : (List.length I <= 10)%nat) (HlenF : (List.length F <= 27)%nat)
  (Hdigit : I <> [] \/ F <> [])
  (Hrest : continues_literal (peek rest) = false) :
  let text := decimal_text negative I F ++ rest in
  let v := (if negative then -1 else 1) * decimal_scaled I F in
  string_to_location_coordinate text
  = if (int32_max <? v) || (v <? int32_min)
    then Throw (wrong_format text) else OK (v, rest).
Proof. exact (plain_decimal_parse negative I F rest HI HF HlenI HlenF Hdigit Hrest). Qed.

Lemma parse_plain_decimal_witness :
  string_to_location_coordinate (cstr "-0.15,7") = OK (-1500000, cstr ",7").
Proof.
  apply (parse_plain_decimal true [0] [1; 5] (cstr ",7"));
    try (repeat constructor; unfold is_digit_value; lia);
    try (cbn; lia); try reflexivity.
  left. discriminate.
Defined.

(** X6: two decimals without exponent that agree in sign, in the digits before
    the point and in the first eight digits after it parse to the same value:
    the digits after the eighth are read and dropped. *)
Theorem parse_ignores_late_digits (negative : bool) (I F G : list Z)
  (rest : cstring)
  (HI : Forall is_digit_value I)
  (HF : Forall is_digit_value F) (HG : Forall is_digit_value G)
  (HlenI : (1 <= List.length I <= 10)%nat)
  (HlenF : (List.length F <= 27)%nat) (HlenG : (List.length G <= 27)%nat)
  (Hsame : firstn 8 F = firstn 8 G)
  (Hrest : continues_literal (peek rest) = false) :
  forall v cursor,
    string_to_location_coordinate (decimal_text negative I F ++ rest)
      = OK (v, cursor)
    <-> string_to_location_coordinate (decimal_text negative I G ++ rest)
      = OK (v, cursor).
Proof.
  intros v cursor.
  assert (HneI : I <> []) by (destruct I; [cbn in HlenI; lia | discriminate]).
  rewrite (plain_decimal_parse negative I F rest) by (auto; lia).
  rewrite (plain_decimal_parse negative I G rest) by (auto; lia).
  unfold decimal_scaled. rewrite Hsame.
  destruct ((int32_max <? _) || (_ <? int32_min)); split; congruence.
Qed.

Lemma parse_ignores_late_digits_witness :
  string_to_location_coordinate (cstr "1.234567849999")
    = OK (12345678, [])
  <-> string_to_location_coordinate (cstr "1.23456784") = OK (12345678, []).
Proof.
  apply (parse_ignores_late_digits false [1]
           [2; 3; 4; 5; 6; 7; 8; 4; 9; 9; 9; 9] [2; 3; 4; 5; 6; 7; 8; 4] []);
    try (repeat constructor; unfold is_digit_value; lia);
    try (cbn; lia); reflexivity.
Defined.

(** ** The formatter writes plain decimals *)

Lemma format_decimal_text (v : Z) :
  int32_min < v <= int32_max ->
  exists I F,
    append_location_coordinate_to_string v = decimal_text (v <? 0) I F
    /\ Forall is_digit_value I /\ Forall is_digit_value F
    /\ (1 <= List.length I <= 3)%nat /\ (List.length F <= 7)%nat
    /\ decimal_scaled I F = Z.abs v.
Proof.
  intros Hv. rewrite format_text by assumption.
  unfold int32_min, int32_max in Hv.
  set (a := Z.abs v). assert (Ha : 0 <= a <= 2147483647) by lia.
  set (q := a / 10000000).
  assert (Hq : 0 <= q < 1000).
  { subst q. split; [apply Z.div_pos; lia | apply Z.div_lt_upper_bound; lia]. }
  destruct (integer_text_digits q Hq) as [d [ds [HI [HrI [HlenI HvalI]]]]].
  destruct (fraction_text_digits a ltac:(lia)) as [F [HF [HrF [HlenF [HvalF _]]]]].
  exists (d :: ds), F. rewrite HI, HF.
  repeat split; try assumption; try (cbn [List.length]; lia).
  unfold decimal_scaled.
  rewrite firstn_all2 by lia.
  rewrite msd_value_app, msd_value_acc.
  change (msd_value (d :: ds) 0) with (msd_value ds d). rewrite HvalI.
  pose proof (pow10_add (List.length F) (7 - List.length F)) as Hadd.
  replace (List.length F + (7 - List.length F))%nat with 7%nat in Hadd by lia.
  change (pow10 7) with 10000000 in Hadd.
  replace (8 - List.length F)%nat with (S (7 - List.length F)) by lia.
  rewrite pow10_S.
  pose proof (Z.div_mod a 10000000 ltac:(lia)) as Hdm. fold q in Hdm.
  symmetry. apply Z.div_unique with (r := 5); [lia | nia].
Qed.

Lemma format_parse_rest (v : Z) (rest : cstring)
  (Hv : int32_min < v <= int32_max)
  (Hrest : continues_literal (peek rest) = false) :
  string_to_location_coordinate
    (append_location_coordinate_to_string v ++ rest)
  = OK (v, rest).
Proof.
  destruct (format_decimal_text v Hv) as [I [F [Ht [HI [HF [HlI [HlF Hval]]]]]]].
  rewrite Ht.
  assert (Hne : I <> [] \/ F <> [])
    by (left; destruct I; [cbn in HlI; lia | discriminate]).
  rewrite (plain_decimal_parse (v <? 0) I F rest HI HF
             ltac:(lia) ltac:(lia) Hne Hrest).
  rewrite Hval. unfold int32_min, int32_max in *.
  assert (Hs : (if v <? 0 then -1 else 1) * Z.abs v = v).
  { destruct (v <? 0) eqn:E;
      [apply Z.ltb_lt in E | apply Z.ltb_ge in E]; lia. }
  rewrite Hs.
  replace (2147483647 <? v) with false by (symmetry; apply Z.ltb_ge; lia).
  replace (v <? -2147483648) with false by (symmetry; apply Z.ltb_ge; lia).
  reflexivity.
Qed.

(** X7: the text of the formatter, followed by a character that is no digit,
    no decimal point and no exponent letter (a separator, or the end of the
    text), is read back by the parser to the value, with the cursor on that
    character. *)
Theorem format_parse_followed (v : Z) (rest : cstring)
  (Hv : int32_min < v <= int32_max)
  (Hrest : continues_literal (peek rest) = false) :
  string_to_location_coordinate
    (append_location_coordinate_to_string v ++ rest)
  = OK (v, rest).
Proof. exact (format_parse_rest v rest Hv Hrest). Qed.

Lemma format_parse_followed_witness :
  string_to_location_coordinate
    (append_location_coordinate_to_string (-1800000000) ++ cstr " 52.5")
  = OK (-1800000000, cstr " 52.5").
Proof.
  apply (format_parse_followed (-1800000000) (cstr " 52.5")).
  - unfold int32_min, int32_max. lia.
  - reflexivity.
Defined.

(** X8: the text of [as_string_without_check] is read back axis by axis: the
    partial setter for the longitude stops on the separator, and the one for
    the latitude reads what follows the separator to its end; the two rebuild
    the Location. *)
Theorem as_string_read_back (l self : Location) (separator : ascii)
  (Hx : int32_min < x l <= int32_max) (Hy : int32_min < y l <= int32_max)
  (Hsep : continues_literal separator = false) :
  exists after,
    set_lon_partial self (as_string_without_check l separator)
      = OK (set_x self (x l), separator :: after)
    /\ set_lat_partial (set_x self (x l)) after = OK (l, []).
Proof.
  exists (append_location_coordinate_to_string (y l)).
  unfold set_lon_partial, set_lat_partial, as_string_without_check.
  rewrite (format_parse_rest (x l)
             ([separator] ++ append_location_coordinate_to_string (y l))
             Hx Hsep).
  rewrite (format_parse_int32 (y l) Hy).
  cbn [bind app]. destruct l as [lx ly]. split; reflexivity.
Qed.

Lemma as_string_read_back_witness :
  exists after,
    set_lon_partial undefined_Location
        (as_string_without_check (make_Location 135000000 (-5)) ","%char)
      = OK (set_x undefined_Location 135000000, ","%char :: after)
    /\ set_lat_partial (set_x undefined_Location 135000000) after
       = OK (make_Location 135000000 (-5), []).
Proof.
  apply (as_string_read_back (make_Location 135000000 (-5))
           undefined_Location ","%char);
    first [reflexivity | unfold x, y, int32_min, int32_max; cbn; lia].
Defined.

(** X9: [set_lon] and [set_lat] on the texts the formatter writes for the two
    axes of a Location return without exception and rebuild the Location,
    whatever the Location held before. *)
Theorem set_from_formatted_text (l self : Location)
  (Hx : int32_min < x l <= int32_max) (Hy : int32_min < y l <= int32_max) :
  set_lon self (append_location_coordinate_to_string (x l))
    = (set_x self (x l), OK tt)
  /\ set_lat (set_x self (x l)) (append_location_coordinate_to_string (y l))
    = (l, OK tt).
Proof.
  unfold set_lon, set_lat.
  rewrite (format_parse_int32 (x l) Hx), (format_parse_int32 (y l) Hy).
  destruct l as [lx ly]. split; reflexivity.
Qed.

Lemma set_from_formatted_text_witness :
  set_lon undefined_Location (append_location_coordinate_to_string 1)
    = (set_x undefined_Location 1, OK tt)
  /\ set_lat (set_x undefined_Location 1)
       (append_location_coordinate_to_string (-900000000))
     = (make_Location 1 (-900000000), OK tt).
Proof.
  apply (set_from_formatted_text (make_Location 1 (-900000000))
           undefined_Location);
    unfold x, y, int32_min, int32_max; cbn; lia.
Defined.

(** ** Shape of the formatter's text *)

Lemma decimal_text_length (negative : bool) (I F : list Z) :
  List.length (decimal_text negative I F)
  = ((if negative then 1 else 0) + List.length I
     + match F with [] => 0 | _ => S (List.length F) end)%nat.
Proof.
  unfold decimal_text.
  destruct negative, F; cbn [app List.length];
    rewrite ?length_app, ?length_map; cbn [List.length map];
    rewrite ?length_map; lia.
Qed.

(** X10: the text of the formatter for an [int32_t] other than the least one
    has at least one and at most twelve characters, and the text of
    [as_string_without_check] at most twenty-five. *)
Theorem format_length (l : Location) (separator : ascii)
  (Hx : int32_min < x l <= int32_max) (Hy : int32_min < y l <= int32_max) :
  (1 <= List.length (append_location_coordinate_to_string (x l)) <= 12)%nat
  /\ (List.length (as_string_without_check l separator) <= 25)%nat.
Proof.
  unfold as_string_without_check.
  destruct (format_decimal_text (x l) Hx) as [I [F [Ht [_ [_ [HlI [HlF _]]]]]]].
  destruct (format_decimal_text (y l) Hy) as [J [G [Hu [_ [_ [HlJ [HlG _]]]]]]].
  rewrite !length_app, Ht, Hu, !decimal_text_length. cbn [List.length].
  destruct (x l <? 0), (y l <? 0), F, G; cbn [List.length] in *; lia.
Qed.

Lemma format_length_witness :
  (1 <= List.length (append_location_coordinate_to_string (-1799999999)) <= 12)%nat
  /\ (List.length (as_string_without_check
                     (make_Location (-1799999999) (-899999999)) ","%char)
      <= 25)%nat.
Proof.
  apply (format_length (make_Location (-1799999999) (-899999999)) ","%char);
    unfold x, y, int32_min, int32_max; cbn; lia.
Defined.

(** X11: the formatter writes a minus sign in front of the text of the
    absolute value, and nowhere else: the text of a value that is not negative
    holds digits and at most one decimal point only. *)
Theorem format_negative (v : Z) (Hv : 0 < v <= int32_max) :
  append_location_coordinate_to_string (- v)
  = "-"%char :: append_location_coordinate_to_string v
  /\ Forall (fun c => is_digit c = true \/ c = "."%char)
            (append_location_coordinate_to_string v).
Proof.
  unfold int32_max in Hv. split.
  - rewrite !format_text by (unfold int32_min, int32_max; lia).
    replace (- v <? 0) with true by (symmetry; apply Z.ltb_lt; lia).
    replace (v <? 0) with false by (symmetry; apply Z.ltb_ge; lia).
    rewrite Z.abs_opp. reflexivity.
  - destruct (format_decimal_text v ltac:(unfold int32_min, int32_max; lia))
      as [I [F [Ht [HI [HF _]]]]].
    rewrite Ht. replace (v <? 0) with false by (symmetry; apply Z.ltb_ge; lia).
    unfold decimal_text. cbn [app].
    assert (Hdig : forall ds, Forall is_digit_value ds ->
                     Forall (fun c => is_digit c = true \/ c = "."%char)
                            (map digit_char ds)).
    { induction 1 as [| d ds Hd _ IH]; cbn [map]; constructor; [| exact IH].
      left. apply (digit_char_cases d Hd). }
    apply Forall_app. split; [apply Hdig; assumption |].
    destruct F; [constructor |].
    constructor; [right; reflexivity | apply Hdig; assumption].
Qed.

Lemma format_negative_witness :
  append_location_coordinate_to_string (- 15000000)
  = "-"%char :: append_location_coordinate_to_string 15000000
  /\ Forall (fun c => is_digit c = true \/ c = "."%char)
            (append_location_coordinate_to_string 15000000).
Proof.
  apply (format_negative 15000000). unfold int32_max. lia.
Defined.

(** ** Where the parser leaves the cursor *)

Lemma peek_is_char (str : cstring) (c : ascii) :
  is_char (peek str) c = true -> c <> NUL -> str = c :: next str.
Proof.
  unfold is_char. intros H Hc. apply Ascii.eqb_eq in H.
  destruct str as [| d str]; cbn [peek next tl] in *; [congruence | now subst].
Qed.

Lemma is_char_not_digit (c d : ascii) :
  is_char c d = true -> is_digit d = false -> is_digit c = false.
Proof. unfold is_char. intros H Hd. apply Ascii.eqb_eq in H. now subst. Qed.

Lemma accumulate_digits_cursor (str : cstring) :
  forall acc max_digits,
    0 <= max_digits ->
    exists consumed,
      str = consumed ++ fst (fst (accumulate_digits str acc max_digits))
      /\ (snd (accumulate_digits str acc max_digits) = 0
          \/ is_digit (peek (fst (fst (accumulate_digits str acc max_digits))))
             = false).
Proof.
  induction str as [| c str IH]; intros acc m Hm.
  - exists []. split; [reflexivity | right; reflexivity].
  - cbn [accumulate_digits].
    destruct (is_digit c) eqn:Hc; cbn [andb].
    + destruct (0 <? m) eqn:Hpos.
      * apply Z.ltb_lt in Hpos.
        destruct (IH (wrap64 (acc * 10 + digit_value c)) (m - 1) ltac:(lia))
          as [consumed [Heq Hend]].
        exists (c :: consumed). split; [cbn [app]; now rewrite <- Heq | exact Hend].
      * apply Z.ltb_ge in Hpos. exists []. split; [reflexivity |].
        left. cbn [snd]. lia.
    + exists []. split; [reflexivity | right; exact Hc].
Qed.

Lemma significant_digits_cursor (str : cstring) :
  forall result scale,
    exists consumed,
      str = consumed ++ fst (fst (significant_digits str result scale)).
Proof.
  induction str as [| c str IH]; intros acc m.
  - exists []. reflexivity.
  - cbn [significant_digits].
    destruct ((0 <? m) && is_digit c).
    + destruct (IH (wrap64 (acc * 10 + digit_value c)) (m - 1))
        as [consumed Heq].
      exists (c :: consumed). cbn [app]. now rewrite <- Heq.
    + exists []. reflexivity.
Qed.

Lemma skip_digits_cursor (str : cstring) :
  forall max_digits,
    0 <= max_digits ->
    exists consumed,
      str = consumed ++ fst (skip_digits str max_digits)
      /\ (snd (skip_digits str max_digits) = 0
          \/ is_digit (peek (fst (skip_digits str max_digits))) = false).
Proof.
  induction str as [| c str IH]; intros m Hm.
  - exists []. split; [reflexivity | right; reflexivity].
  - cbn [skip_digits].
    destruct (is_digit c) eqn:Hc; cbn [andb].
    + destruct (0 <? m) eqn:Hpos.
      * apply Z.ltb_lt in Hpos.
        destruct (IH (m - 1) ltac:(lia)) as [consumed [Heq Hend]].
        exists (c :: consumed). split; [cbn [app]; now rewrite <- Heq | exact Hend].
      * apply Z.ltb_ge in Hpos. exists []. split; [reflexivity |].
        left. cbn [snd]. lia.
    + exists []. split; [reflexivity | right; exact Hc].
Qed.

Lemma integer_part_cursor (full str str' : cstring) (r : Z) :
  integer_part full str = OK (str', r) ->
  exists consumed,
    str = consumed ++ str'
    /\ ((consumed <> [] /\ is_digit (peek str') = false)
        \/ (consumed = [] /\ is_char (peek str') "." = true)).
Proof.
  unfold integer_part. intros H.
  destruct (is_char (peek str) ".") eqn:Hdot; cbn [negb] in H.
  - destruct (is_digit (peek (next str))); cbn [negb] in H; [| discriminate].
    injection H as <- <-. exists []. split; [reflexivity | right; auto].
  - destruct (is_digit (peek str)) eqn:Hd; [| discriminate].
    destruct (accumulate_digits_cursor (next str) (digit_value (peek str)) 10
                ltac:(lia)) as [consumed [Heq Hend]].
    destruct (accumulate_digits (next str) (digit_value (peek str)) 10)
      as [[s a] m]. cbn [fst snd] in *.
    destruct (m =? 0) eqn:Hm; [discriminate |].
    injection H as <- <-. apply Z.eqb_neq in Hm.
    destruct str as [| c str]; [discriminate |].
    cbn [next tl] in Heq. exists (c :: consumed).
    split; [cbn [app]; now rewrite <- Heq |].
    left. split; [discriminate |]. destruct Hend; [contradiction | assumption].
Qed.

Lemma fraction_part_cursor (full str str' : cstring) (r s r' s' : Z) :
  fraction_part full str r s = OK (str', r', s') ->
  exists consumed,
    str = consumed ++ str'
    /\ (if is_char (peek str) "."
        then consumed <> [] /\ is_digit (peek str') = false
        else consumed = []).
Proof.
  unfold fraction_part. intros H.
  destruct (is_char (peek str) ".") eqn:Hdot.
  - pose proof (peek_is_char str "."%char Hdot ltac:(discriminate)) as Hstr.
    destruct (significant_digits_cursor (next str) r s) as [c1 H1].
    destruct (significant_digits (next str) r s) as [[s1 r1] sc1].
    cbn [fst] in H1.
    destruct (skip_digits_cursor s1 20 ltac:(lia)) as [c2 [H2 Hend]].
    destruct (skip_digits s1 20) as [s2 m]. cbn [fst snd] in *.
    destruct (m =? 0) eqn:Hm; [discriminate |].
    injection H as <- <- <-. apply Z.eqb_neq in Hm.
    exists ("."%char :: c1 ++ c2). split.
    + rewrite Hstr at 1. cbn [app]. rewrite <- app_assoc, <- H2, <- H1. reflexivity.
    + split; [discriminate |]. destruct Hend; [contradiction | assumption].
  - injection H as <- <- <-. exists []. split; reflexivity.
Qed.

Lemma read_sign_cursor (str : cstring) :
  exists consumed, str = consumed ++ fst (read_sign str).
Proof.
  unfold read_sign. destruct (is_char (peek str) "-") eqn:H.
  - exists ["-"%char]. cbn [fst app].
    apply (peek_is_char str "-"%char H). discriminate.
  - exists []. reflexivity.
Qed.

Lemma exponent_part_cursor (full str str' : cstring) (s s' : Z) :
  exponent_part full str s = OK (str', s') ->
  exists consumed,
    str = consumed ++ str'
    /\ (if is_char (peek str) "e" || is_char (peek str) "E"
        then is_digit (peek str') = false
        else consumed = []).
Proof.
  unfold exponent_part. intros H.
  destruct (is_char (peek str) "e" || is_char (peek str) "E") eqn:He.
  - assert (Hstr : exists c, str = c :: next str).
    { apply orb_true_iff in He. destruct He as [He | He];
        [exists "e"%char | exists "E"%char];
        apply peek_is_char; try assumption; discriminate. }
    destruct Hstr as [c Hstr].
    destruct (read_sign_cursor (next str)) as [c0 H0].
    destruct (read_sign (next str)) as [s0 esign]. cbn [fst] in H0.
    destruct (is_digit (peek s0)) eqn:Hd; [| discriminate].
    destruct (accumulate_digits_cursor (next s0) (digit_value (peek s0)) 5
                ltac:(lia)) as [c1 [H1 Hend]].
    destruct (accumulate_digits (next s0) (digit_value (peek s0)) 5)
      as [[s1 a] m]. cbn [fst snd] in *.
    destruct (m =? 0) eqn:Hm; [discriminate |].
    injection H as <- <-. apply Z.eqb_neq in Hm.
    destruct s0 as [| d s0]; [discriminate |]. cbn [next tl] in H1.
    exists (c :: c0 ++ d :: c1). split.
    + rewrite Hstr at 1. cbn [app]. rewrite H0 at 1.
      rewrite <- app_assoc. cbn [app]. now rewrite <- H1.
    + destruct Hend; [contradiction | assumption].
  - injection H as <- <-. exists []. split; reflexivity.
Qed.

(** X12: when the parser returns, it has read a part of the text that is not
    empty, the cursor is at what is left, and the cursor is not on a digit;
    the value is within [int32_t]. *)
Theorem parse_cursor (data rest : cstring) (v : Z)
  (Hparse : string_to_location_coordinate data = OK (v, rest)) :
  (exists consumed, consumed <> [] /\ data = consumed ++ rest)
  /\ is_digit (peek rest) = false
  /\ int32_min <= v <= int32_max.
Proof.
  unfold string_to_location_coordinate in Hparse.
  destruct (read_sign_cursor data) as [c0 H0].
  destruct (read_sign data) as [s0 sign]. cbn [fst] in H0.
  destruct (integer_part data s0) as [[s1 r1] |] eqn:Hint; [| discriminate].
  cbn [bind] in Hparse.
  destruct (fraction_part data s1 r1 8) as [[[s2 r2] sc2] |] eqn:Hfrac;
    [| discriminate].
  cbn [bind] in Hparse.
  destruct (exponent_part data s2 sc2) as [[s3 sc3] |] eqn:Hexp;
    [| discriminate].
  cbn [bind] in Hparse.
  destruct ((int32_max <? round_and_sign (apply_scale r2 sc3) sign)
            || (round_and_sign (apply_scale r2 sc3) sign <? int32_min))
    eqn:Hrange; [discriminate |].
  injection Hparse as <- <-.
  apply orb_false_iff in Hrange. destruct Hrange as [Hhi Hlo].
  apply Z.ltb_ge in Hhi. apply Z.ltb_ge in Hlo.
  destruct (integer_part_cursor _ _ _ _ Hint) as [c1 [H1 Hc1]].
  destruct (fraction_part_cursor _ _ _ _ _ _ _ Hfrac) as [c2 [H2 Hc2]].
  destruct (exponent_part_cursor _ _ _ _ _ Hexp) as [c3 [H3 Hc3]].
  assert (Hdata : data = (c0 ++ c1 ++ c2 ++ c3) ++ s3).
  { rewrite H0 at 1. rewrite H1 at 1. rewrite H2 at 1. rewrite H3 at 1.
    now rewrite <- !app_assoc. }
  split; [| split; [| lia]].
  - exists (c0 ++ c1 ++ c2 ++ c3). split; [| exact Hdata].
    destruct Hc1 as [[Hne _] | [_ Hdot]].
    + destruct c1; [contradiction |]. destruct c0; discriminate.
    + rewrite Hdot in Hc2. destruct Hc2 as [Hne _].
      destruct c2; [contradiction |]. destruct c0, c1; discriminate.
  - destruct (is_char (peek s2) "e" || is_char (peek s2) "E") eqn:He;
      [exact Hc3 |].
    subst c3. cbn [app] in H3. subst s3.
    destruct (is_char (peek s1) ".") eqn:Hdot; [apply Hc2 |].
    subst c2. cbn [app] in H2. subst s2.
    destruct Hc1 as [[_ Hd] | [_ Hdot']]; [exact Hd | congruence].
Qed.

Lemma parse_cursor_witness :
  (exists consumed, consumed <> [] /\ cstr "13.5,52.5" = consumed ++ cstr ",52.5")
  /\ is_digit (peek (cstr ",52.5")) = false
  /\ int32_min <= 135000000 <= int32_max.
Proof.
  apply (parse_cursor (cstr "13.5,52.5") (cstr ",52.5") 135000000).
  vm_compute. reflexivity.
Defined.

(** ** Texts the parser rejects *)

(** X13: a text that, after an optional minus sign, starts neither with a
    digit nor with a decimal point followed by a digit is rejected with
    [invalid_location]; so are the empty text, a lone minus sign and a lone
    decimal point. *)
Theorem parse_requires_digit (negative : bool) (body : cstring)
  (Hminus : negative = false -> is_char (peek body) "-" = false)
  (Hdigit : is_digit (peek body) = false)
  (Hpoint : is_char (peek body) "." = false
            \/ is_digit (peek (next body)) = false) :
  let text := (if negative then ["-"%char] else []) ++ body in
  string_to_location_coordinate text = Throw (wrong_format text).
Proof.
  intros text. unfold string_to_location_coordinate.
  assert (Hsign : exists sign, read_sign text = (body, sign)).
  { subst text. destruct negative.
    - exists (-1). reflexivity.
    - exists 1. unfold read_sign. cbn [app]. rewrite Hminus; reflexivity. }
  destruct Hsign as [sign ->].
  assert (Hint : integer_part text body = Throw (wrong_format text)).
  { unfold integer_part. rewrite Hdigit.
    destruct (is_char (peek body) "."); cbn [negb]; [| reflexivity].
    destruct Hpoint as [Hp | Hp]; [discriminate |]. rewrite Hp. reflexivity. }
  rewrite Hint. reflexivity.
Qed.

Lemma parse_requires_digit_witness :
  string_to_location_coordinate [] = Throw (wrong_format [])
  /\ string_to_location_coordinate (cstr "-") = Throw (wrong_format (cstr "-"))
  /\ string_to_location_coordinate (cstr ".") = Throw (wrong_format (cstr "."))
  /\ string_to_location_coordinate (cstr "+1")
     = Throw (wrong_format (cstr "+1"))
  /\ string_to_location_coordinate (cstr " 1")
     = Throw (wrong_format (cstr " 1")).
Proof.
  refine (conj _ (conj _ (conj _ (conj _ _)))).
  - apply (parse_requires_digit false []); auto.
  - apply (parse_requires_digit true []); auto.
  - apply (parse_requires_digit false (cstr ".")); auto.
  - apply (parse_requires_digit false (cstr "+1")); auto.
  - apply (parse_requires_digit false (cstr " 1")); auto.
Defined.

Lemma firstn_digits (n : nat) (F : list Z) :
  Forall is_digit_value F ->
  Forall is_digit_value (firstn n F) /\ Forall is_digit_value (skipn n F).
Proof.
  intros H. rewrite <- (firstn_skipn n F) in H. apply Forall_app in H. exact H.
Qed.

(** X14: a decimal with twenty-eight or more digits after the point is
    rejected, whatever follows them: eight digits are read and nineteen more
    are passed over, a twentieth is an error. *)
Theorem parse_rejects_long_fraction (negative : bool) (I F : list Z)
  (rest : cstring)
  (HI : Forall is_digit_value I) (HF : Forall is_digit_value F)
  (HlenI : (List.length I <= 10)%nat) (HlenF : (28 <= List.length F)%nat) :
  let text := (if negative then ["-"%char] else [])
                ++ map digit_char I ++ "."%char :: map digit_char F ++ rest in
  string_to_location_coordinate text = Throw (wrong_format text).
Proof.
  intros text.
  destruct F as [| f F']; [cbn in HlenF; lia |].
  set (F := f :: F') in *.
  set (tail := "."%char :: map digit_char F ++ rest).
  assert (Hminus : is_char (peek (map digit_char I ++ tail)) "-" = false).
  { destruct I as [| d I']; [reflexivity |].
    apply peek_digits_app; [assumption | discriminate]. }
  assert (Hint : integer_part text (map digit_char I ++ tail)
                 = OK (tail, msd_value I 0)).
  { destruct I as [| d I'].
    - inversion HF as [| ? ? Hf _]; subst.
      apply (integer_part_absent text rest f F' Hf).
    - apply integer_part_value; try assumption; [| reflexivity].
      cbn [List.length] in *. lia. }
  assert (Htext : text = (if negative then ["-"%char] else [])
                           ++ map digit_char I ++ tail) by reflexivity.
  unfold string_to_location_coordinate.
  rewrite Htext at 1. rewrite (read_sign_text negative _ Hminus).
  rewrite Hint. cbn [bind].
  clearbody F.
  destruct (firstn_digits 8 F HF) as [Hused Hlate].
  destruct (firstn_digits 20 (skipn 8 F) Hlate) as [Hskip _].
  pose proof (msd_value_bounds I HI) as HbI.
  assert (HpI : pow10 (List.length I) <= pow10 10) by (apply pow10_le; lia).
  change (pow10 10) with 10000000000 in HpI.
  assert (Hl8 : List.length (firstn 8 F) = 8%nat)
    by (rewrite length_firstn; lia).
  assert (Hl20 : List.length (firstn 20 (skipn 8 F)) = 20%nat)
    by (rewrite length_firstn, length_skipn; lia).
  assert (Hfrac : fraction_part text tail (msd_value I 0) 8
                  = Throw (wrong_format text)).
  { subst tail. unfold fraction_part. cbn [peek next tl].
    change (is_char "." ".") with true. cbv iota.
    rewrite <- (firstn_skipn 8 F) at 1.
    rewrite <- (firstn_skipn 20 (skipn 8 F)) at 1.
    rewrite !map_app, <- !app_assoc.
    rewrite significant_digits_take; try assumption;
      [| right; lia | lia
       | rewrite Hl8; change (pow10 8) with 100000000; unfold llong_max; lia
       | lia].
    rewrite skip_digits_count; try assumption; [| right; lia | lia].
    rewrite Hl20. reflexivity. }
  rewrite Hfrac. reflexivity.
Qed.

Lemma parse_rejects_long_fraction_witness :
  string_to_location_coordinate (cstr "1.0000000000000000000000000000")
  = Throw (wrong_format (cstr "1.0000000000000000000000000000")).
Proof.
  apply (parse_rejects_long_fraction false [1] (repeat 0 28) []).
  - repeat constructor; unfold is_digit_value; lia.
  - repeat constructor; unfold is_digit_value; lia.
  - cbn. lia.
  - cbn. lia.
Defined.

(** ** The parser on decimals with an exponent *)

(** The parser up to the exponent, on a decimal text followed by
    something that is neither a digit nor a decimal point. *)
Lemma parse_up_to_exponent (negative : bool) (I F : list Z) (tail : cstring) :
  Forall is_digit_value I -> Forall is_digit_value F ->
  (List.length I <= 10)%nat -> (List.length F <= 27)%nat ->
  I <> [] \/ F <> [] ->
  is_digit (peek tail) = false -> is_char (peek tail) "." = false ->
  let text := decimal_text negative I F ++ tail in
  string_to_location_coordinate text
  = ('(str, scale) <- exponent_part text tail
                        (8 - Z.of_nat (List.length (firstn 8 F))) ;;
     let result := round_and_sign (apply_scale (kept_digits I F) scale)
                                  (if negative then -1 else 1) in
     if (int32_max <? result) || (result <? int32_min)
     then Throw (wrong_format text) else OK (result, str)).
Proof.
  intros HI HF HlenI HlenF Hdigit Hrd Hrp text.
  set (frac := match F with [] => [] | _ => "."%char :: map digit_char F end).
  assert (Htext : text = (if negative then ["-"%char] else [])
                           ++ map digit_char I ++ frac ++ tail).
  { subst text frac. unfold decimal_text. now rewrite <- !app_assoc. }
  assert (Hfrac : is_digit (peek (frac ++ tail)) = false).
  { subst frac. destruct F; [exact Hrd | reflexivity]. }
  assert (Hminus : is_char (peek (map digit_char I ++ frac ++ tail)) "-" = false).
  { destruct I as [| d I'].
    - destruct Hdigit as [Hd | Hd]; [contradiction |].
      subst frac. destruct F; [contradiction | reflexivity].
    - apply peek_digits_app; [assumption | discriminate]. }
  assert (Hint : integer_part text (map digit_char I ++ frac ++ tail)
                 = OK (frac ++ tail, msd_value I 0)).
  { destruct I as [| d I'].
    - destruct Hdigit as [Hd | Hd]; [contradiction |].
      subst frac. destruct F as [| f F']; [contradiction |].
      inversion HF as [| ? ? Hf _]; subst.
      cbn [map app]. apply (integer_part_absent text tail f F' Hf).
    - apply integer_part_value; try assumption. cbn [List.length] in *. lia. }
  pose proof (msd_value_bounds I HI) as HbI.
  assert (HpI : pow10 (List.length I) <= pow10 10) by (apply pow10_le; lia).
  unfold string_to_location_coordinate.
  rewrite Htext at 1. rewrite (read_sign_text negative _ Hminus).
  rewrite Hint. cbn [bind].
  subst frac.
  rewrite (fraction_part_value text tail (msd_value I 0) F HF HlenF
             ltac:(lia) Hrd Hrp).
  cbn [bind]. unfold kept_digits. rewrite msd_value_app. reflexivity.
Qed.

Lemma kept_digits_bounds (I F : list Z) :
  Forall is_digit_value I -> Forall is_digit_value F ->
  (List.length I <= 10)%nat ->
  0 <= kept_digits I F < 1000000000000000000.
Proof.
  intros HI HF HlenI. unfold kept_digits.
  destruct (firstn_digits 8 F HF) as [Hused _].
  pose proof (msd_value_bounds (I ++ firstn 8 F)
                ltac:(apply Forall_app; split; assumption)) as Hb.
  assert (Hl : (List.length (I ++ firstn 8 F) <= 18)%nat).
  { rewrite length_app, length_firstn. lia. }
  apply pow10_le in Hl. change (pow10 18) with 1000000000000000000 in Hl. lia.
Qed.

Lemma exponent_part_value (full rest : cstring) (letter : ascii)
  (negative : bool) (E : list Z) (scale : Z) :
  letter = "e"%char \/ letter = "E"%char ->
  Forall is_digit_value E -> (1 <= List.length E <= 5)%nat ->
  is_digit (peek rest) = false ->
  0 <= scale <= 8 ->
  exponent_part full (exponent_text letter negative E ++ rest) scale
  = OK (rest, scale + (if negative then -1 else 1) * msd_value E 0).
Proof.
  intros Hletter HE Hlen Hrest Hscale.
  destruct E as [| d ds]; [cbn in Hlen; lia |].
  inversion HE as [| ? ? Hd Hds]; subst.
  destruct (digit_char_cases d Hd) as [Hdig [Hval [_ [_ Hminus]]]].
  unfold exponent_part, exponent_text. cbn [app peek next tl].
  assert (Hl : is_char letter "e" || is_char letter "E" = true).
  { destruct Hletter; subst; reflexivity. }
  rewrite Hl.
  assert (Hsign : read_sign ((if negative then ["-"%char] else [])
                               ++ map digit_char (d :: ds) ++ rest)
                  = (map digit_char (d :: ds) ++ rest,
                     if negative then -1 else 1)).
  { apply read_sign_text. cbn [map app peek]. exact Hminus. }
  rewrite <- app_assoc, Hsign. cbn [map app peek next tl].
  rewrite Hdig, Hval.
  cbn [List.length] in Hlen.
  assert (Hp : pow10 (List.length ds) <= pow10 4) by (apply pow10_le; lia).
  change (pow10 4) with 10000 in Hp.
  pose proof (pow10_pos (List.length ds)) as Hp0.
  pose proof (msd_value_bounds (d :: ds) HE) as Hb.
  cbn [List.length] in Hb. rewrite pow10_S in Hb.
  change (msd_value (d :: ds) 0) with (msd_value ds d) in *.
  unfold is_digit_value in Hd.
  rewrite accumulate_digits_value; try assumption;
    try lia; try (unfold llong_max; nia).
  replace (5 - Z.of_nat (List.length ds) =? 0) with false
    by (symmetry; apply Z.eqb_neq; lia).
  rewrite (wrap64_small (msd_value ds d * _))
    by (unfold llong_min, llong_max; destruct negative; lia).
  rewrite wrap64_small
    by (unfold llong_min, llong_max; destruct negative; lia).
  f_equal. f_equal. lia.
Qed.

Lemma scale_down_value (n : nat) :
  forall result, 0 <= result -> scale_down n result = result / pow10 n.
Proof.
  induction n as [| n IH]; intros r Hr.
  - cbn [scale_down]. change (pow10 0) with 1. now rewrite Z.div_1_r.
  - cbn [scale_down]. rewrite pow10_S. pose proof (pow10_pos n) as Hp.
    destruct (0 <? r) eqn:Hpos.
    + rewrite Z.quot_div_nonneg by lia.
      rewrite IH by (apply Z.div_pos; lia).
      rewrite Z.div_div by lia. reflexivity.
    + apply Z.ltb_ge in Hpos. assert (r = 0) by lia. subst r.
      now rewrite Z.div_0_l by lia.
Qed.

(** X15: the parser on a decimal with an exponent of one to five digits: the
    kept digits are shifted by the exponent, to the left by multiplication and
    to the right by division, then rounded half up on the last place; the
    cursor is left behind the exponent. The shift to the left is that of the
    code as long as the shifted number is at most 10^18, inside [int64_t]. *)
Theorem parse_exponent_value (negative eneg : bool) (letter : ascii)
  (I F E : list Z) (rest : cstring)
  (HI : Forall is_digit_value I) (HF : Forall is_digit_value F)
  (HE : Forall is_digit_value E)
  (HlenI : (List.length I <= 10)%nat) (HlenF : (List.length F <= 27)%nat)
  (HlenE : (1 <= List.length E <= 5)%nat)
  (Hdigit : I <> [] \/ F <> [])
  (Hletter : letter = "e"%char \/ letter = "E"%char)
  (Hrest : is_digit (peek rest) = false) :
  let text := decimal_text negative I F ++ exponent_text letter eneg E ++ rest in
  let scale := 8 - Z.of_nat (List.length (firstn 8 F))
               + (if eneg then -1 else 1) * msd_value E 0 in
  let shifted := if scale <? 0 then kept_digits I F / 10 ^ (- scale)
                 else kept_digits I F * 10 ^ scale in
  let v := (if negative then -1 else 1) * ((shifted + 5) / 10) in
  (0 <= scale -> kept_digits I F * 10 ^ scale <= 1000000000000000000) ->
  string_to_location_coordinate text
  = if (int32_max <? v) || (v <? int32_min)
    then Throw (wrong_format text) else OK (v, rest).
Proof.
  intros text scale shifted v Hfit.
  assert (Hpeek : is_digit (peek (exponent_text letter eneg E ++ rest)) = false
                  /\ is_char (peek (exponent_text letter eneg E ++ rest)) "."
                     = false).
  { destruct Hletter; subst letter; split; reflexivity. }
  destruct Hpeek as [Hpd Hpp].
  pose proof (parse_up_to_exponent negative I F
                (exponent_text letter eneg E ++ rest)
                HI HF HlenI HlenF Hdigit Hpd Hpp) as Hparse.
  cbv zeta in Hparse. fold text in Hparse. rewrite Hparse. clear Hparse.
  assert (Hl8 : (List.length (firstn 8 F) <= 8)%nat)
    by (rewrite length_firstn; lia).
  rewrite (exponent_part_value text rest letter eneg E _ Hletter HE HlenE Hrest)
    by lia.
  cbn [bind]. fold scale.
  pose proof (kept_digits_bounds I F HI HF HlenI) as Hk.
  assert (Hscaled : apply_scale (kept_digits I F) scale = shifted).
  { unfold apply_scale. subst shifted.
    destruct (scale <? 0) eqn:Hneg.
    - apply Z.ltb_lt in Hneg.
      rewrite scale_down_value by lia.
      unfold pow10. rewrite Z2Nat.id by lia. reflexivity.
    - apply Z.ltb_ge in Hneg. specialize (Hfit Hneg).
      assert (Hpw : pow10 (Z.to_nat scale) = 10 ^ scale)
        by (unfold pow10; now rewrite Z2Nat.id by lia).
      rewrite scale_up_value; rewrite ?Hpw;
        [reflexivity | lia | unfold llong_max; lia]. }
  rewrite Hscaled.
  assert (Hshifted : 0 <= shifted <= 1000000000000000000).
  { subst shifted. destruct (scale <? 0) eqn:Hneg.
    - apply Z.ltb_lt in Hneg.
      assert (0 < 10 ^ (- scale)) by (apply Z.pow_pos_nonneg; lia).
      split; [apply Z.div_pos; lia |].
      apply Z.le_trans with (kept_digits I F); [| lia].
      apply Z.div_le_upper_bound; [lia | nia].
    - apply Z.ltb_ge in Hneg. specialize (Hfit Hneg).
      assert (0 < 10 ^ scale) by (apply Z.pow_pos_nonneg; lia).
      split; [nia | lia]. }
  rewrite round_and_sign_general by (try lia; destruct negative; auto).
  reflexivity.
Qed.

Lemma parse_exponent_value_witness :
  string_to_location_coordinate (cstr "-12.5E-3;") = OK (-125000, cstr ";").
Proof.
  apply (parse_exponent_value true true "E"%char [1; 2] [5] [3] (cstr ";"));
    try (repeat constructor; unfold is_digit_value; lia);
    try (cbn; lia); try reflexivity.
  all: try (left; discriminate); try (right; reflexivity).
  all: try (vm_compute; intros _; discriminate).
Defined.

(** X16: an exponent letter that is followed, after an optional minus sign, by
    no digit, and an exponent of six or more digits are rejected. *)
Theorem parse_exponent_digit_count (negative eneg : bool) (letter : ascii)
  (I F : list Z) (E rest : cstring)
  (HI : Forall is_digit_value I) (HF : Forall is_digit_value F)
  (HlenI : (List.length I <= 10)%nat) (HlenF : (List.length F <= 27)%nat)
  (Hdigit : I <> [] \/ F <> [])
  (Hletter : letter = "e"%char \/ letter = "E"%char)
  (HE : Forall (fun c => is_digit c = true) E)
  (Hcount : (E = [] /\ is_digit (peek rest) = false
             /\ (eneg = false -> is_char (peek rest) "-" = false))
            \/ (6 <= List.length E)%nat) :
  let text := decimal_text negative I F
                ++ letter :: (if eneg then ["-"%char] else []) ++ E ++ rest in
  string_to_location_coordinate text = Throw (wrong_format text).
Proof.
  intros text. subst text.
  set (tail := letter :: (if eneg then ["-"%char] else []) ++ E ++ rest).
  set (text := decimal_text negative I F ++ tail).
  assert (Hpeek : is_digit (peek tail) = false
                  /\ is_char (peek tail) "." = false).
  { subst tail. destruct Hletter; subst letter; split; reflexivity. }
  destruct Hpeek as [Hpd Hpp].
  pose proof (parse_up_to_exponent negative I F tail
                HI HF HlenI HlenF Hdigit Hpd Hpp) as Hparse.
  cbv zeta in Hparse. fold text in Hparse. rewrite Hparse. clear Hparse.
  assert (Hexp : forall scale,
             exponent_part text tail scale = Throw (wrong_format text)).
  { intros scale. subst tail. unfold exponent_part. cbn [peek next tl].
    assert (Hl : is_char letter "e" || is_char letter "E" = true).
    { destruct Hletter; subst; reflexivity. }
    rewrite Hl.
    assert (Hsign : exists esign,
               read_sign ((if eneg then ["-"%char] else []) ++ E ++ rest)
               = (E ++ rest, esign)).
    { destruct eneg; [exists (-1); reflexivity |].
      exists 1. apply (read_sign_text false).
      destruct Hcount as [[-> [_ Hm]] | Hlen]; [apply Hm; reflexivity |].
      destruct E as [| c E']; [cbn in Hlen; lia |].
      inversion HE as [| ? ? Hc _]; subst. cbn [app peek]. unfold is_char.
      destruct (Ascii.eqb_spec c "-"%char) as [-> |]; [discriminate | reflexivity]. }
    destruct Hsign as [esign ->].
    destruct Hcount as [[-> [Hnd _]] | Hlen].
    - cbn [app]. rewrite Hnd. reflexivity.
    - destruct E as [| c E']; [cbn in Hlen; lia |].
      inversion HE as [| ? ? Hc HE']; subst.
      cbn [app peek next tl]. rewrite Hc.
      pose proof (accumulate_digits_exhausts E' rest (digit_value c) 5 HE')
        as Hz.
      destruct (accumulate_digits (E' ++ rest) (digit_value c) 5) as [[s a] m].
      cbn [snd] in Hz. rewrite Hz; [reflexivity |].
      cbn [List.length] in Hlen. lia. }
  rewrite Hexp. reflexivity.
Qed.

Lemma parse_exponent_digit_count_witness :
  string_to_location_coordinate (cstr "1e") = Throw (wrong_format (cstr "1e"))
  /\ string_to_location_coordinate (cstr "1e000001")
     = Throw (wrong_format (cstr "1e000001")).
Proof.
  split.
  - apply (parse_exponent_digit_count false false "e"%char [1] [] [] []);
      try (repeat constructor; unfold is_digit_value; lia);
      try (cbn; lia).
    all: try (left; discriminate); try (left; reflexivity).
    all: try (left; repeat split; reflexivity).
  - apply (parse_exponent_digit_count false false "e"%char [1] []
             (cstr "000001") []);
      try (repeat constructor; unfold is_digit_value; lia);
      try (cbn; lia).
    all: try (left; discriminate); try (left; reflexivity).
Defined.

(** ** The minus sign *)

Lemma integer_part_full (f1 f2 str : cstring) (r : cstring * Z) :
  integer_part f1 str = OK r -> integer_part f2 str = OK r.
Proof.
  unfold integer_part.
  destruct (negb (is_char (peek str) ".")).
  - destruct (is_digit (peek str)); [| discriminate].
    destruct (accumulate_digits (next str) (digit_value (peek str)) 10)
      as [[s a] m].
    destruct (m =? 0); [discriminate | auto].
  - destruct (negb (is_digit (peek (next str)))); [discriminate | auto].
Qed.

Lemma fraction_part_full (f1 f2 str : cstring) (q s : Z)
  (r : cstring * Z * Z) :
  fraction_part f1 str q s = OK r -> fraction_part f2 str q s = OK r.
Proof.
  unfold fraction_part.
  destruct (is_char (peek str) "."); [| auto].
  destruct (significant_digits (next str) q s) as [[s1 r1] sc1].
  destruct (skip_digits s1 20) as [s2 m].
  destruct (m =? 0); [discriminate | auto].
Qed.

Lemma exponent_part_full (f1 f2 str : cstring) (s : Z) (r : cstring * Z) :
  exponent_part f1 str s = OK r -> exponent_part f2 str s = OK r.
Proof.
  unfold exponent_part.
  destruct (is_char (peek str) "e" || is_char (peek str) "E"); [| auto].
  destruct (read_sign (next str)) as [s0 esign].
  destruct (is_digit (peek s0)); [| discriminate].
  destruct (accumulate_digits (next s0) (digit_value (peek s0)) 5)
    as [[s1 a] m].
  destruct (m =? 0); [discriminate | auto].
Qed.

Lemma wrap64_range (z : Z) : llong_min <= wrap64 z <= llong_max.
Proof.
  unfold wrap64, wrap, llong_min, llong_max.
  change (2 ^ (64 - 1)) with 9223372036854775808.
  change (2 ^ 64) with 18446744073709551616.
  pose proof (Z.mod_pos_bound (z + 9223372036854775808) 18446744073709551616
                ltac:(lia)). lia.
Qed.

Lemma round_and_sign_opp (r : Z) :
  round_and_sign r (-1) = - round_and_sign r 1.
Proof.
  unfold round_and_sign.
  pose proof (wrap64_range (r + 5)) as Hw.
  unfold llong_min, llong_max in Hw.
  set (w := wrap64 (r + 5)) in *. clearbody w.
  assert (Hq : -922337203685477590 <= Z.quot w 10 <= 922337203685477590).
  { pose proof (Z.quot_rem' w 10) as Hqr.
    assert (H10 : 10 <> 0) by lia.
    pose proof (Z.rem_bound_abs w 10 H10) as Hr.
    change (Z.abs 10) with 10 in Hr.
    revert Hqr Hr. generalize (Z.quot w 10) (Z.rem w 10). intros q m Hqr Hr.
    lia. }
  rewrite !wrap64_small by (unfold llong_min, llong_max; lia). lia.
Qed.

(** X17: a text without a leading minus sign that parses to a value other than
    the least [int32_t] parses, with a minus sign put in front of it, to the
    negated value, with the same cursor. *)
Theorem parse_negated (str rest : cstring) (v : Z)
  (Hminus : is_char (peek str) "-" = false)
  (Hparse : string_to_location_coordinate str = OK (v, rest))
  (Hv : v <> int32_min) :
  string_to_location_coordinate ("-"%char :: str) = OK (- v, rest).
Proof.
  unfold string_to_location_coordinate in *.
  change (read_sign ("-"%char :: str)) with (str, -1).
  assert (Hs : read_sign str = (str, 1))
    by (unfold read_sign; now rewrite Hminus).
  rewrite Hs in Hparse.
  destruct (integer_part str str) as [[s1 r1] |] eqn:Hint; [| discriminate].
  rewrite (integer_part_full str ("-"%char :: str) str _ Hint).
  cbn [bind] in *.
  destruct (fraction_part str s1 r1 8) as [[[s2 r2] sc2] |] eqn:Hfrac;
    [| discriminate].
  rewrite (fraction_part_full str ("-"%char :: str) s1 _ _ _ Hfrac).
  cbn [bind] in *.
  destruct (exponent_part str s2 sc2) as [[s3 sc3] |] eqn:Hexp;
    [| discriminate].
  rewrite (exponent_part_full str ("-"%char :: str) s2 _ _ Hexp).
  cbn [bind] in *.
  rewrite round_and_sign_opp.
  set (q := round_and_sign (apply_scale r2 sc3) 1) in *.
  destruct ((int32_max <? q) || (q <? int32_min)) eqn:Hrange; [discriminate |].
  injection Hparse as <- <-.
  apply orb_false_iff in Hrange. destruct Hrange as [Hhi Hlo].
  apply Z.ltb_ge in Hhi. apply Z.ltb_ge in Hlo.
  unfold int32_max, int32_min in *.
  replace (2147483647 <? - q) with false by (symmetry; apply Z.ltb_ge; lia).
  replace (- q <? -2147483648) with false by (symmetry; apply Z.ltb_ge; lia).
  reflexivity.
Qed.

Lemma parse_negated_witness :
  string_to_location_coordinate (cstr "-1.5e1 ") = OK (- 150000000, cstr " ").
Proof.
  apply (parse_negated (cstr "1.5e1 ") (cstr " ") 150000000).
  - reflexivity.
  - vm_compute. reflexivity.
  - discriminate.
Defined.

(** ** Comparison of Locations *)

Lemma Location_eq_true (a b : Location) : Location_eq a b = true <-> a = b.
Proof.
  destruct a as [ax ay], b as [bx by']. unfold Location_eq, x, y. cbn [m_x m_y].
  rewrite andb_true_iff, !Z.eqb_eq. split.
  - intros [-> ->]. reflexivity.
  - intros H. injection H as -> ->. auto.
Qed.

(** X18: [operator<] is a strict total order on Locations: no Location is less
    than itself, the relation is transitive, and of two different Locations
    exactly one is less than the other. *)
Theorem Location_lt_strict_total :
  (forall a, Location_lt a a = false)
  /\ (forall a b c,
        Location_lt a b = true -> Location_lt b c = true ->
        Location_lt a c = true)
  /\ (forall a b, Location_lt a b = true -> Location_lt b a = false)
  /\ (forall a b, a <> b -> Location_lt a b = true \/ Location_lt b a = true).
Proof.
  assert (Hlt : forall a b, Location_lt a b = true
                            <-> (x a < x b \/ (x a = x b /\ y a < y b))).
  { intros a b. unfold Location_lt.
    rewrite orb_true_iff, andb_true_iff, Z.eqb_eq, !Z.ltb_lt. tauto. }
  repeat split.
  - intros a. destruct (Location_lt a a) eqn:E; [| reflexivity].
    apply Hlt in E. lia.
  - intros a b c Hab Hbc. apply Hlt in Hab. apply Hlt in Hbc. apply Hlt. lia.
  - intros a b Hab. destruct (Location_lt b a) eqn:E; [| reflexivity].
    apply Hlt in Hab. apply Hlt in E. lia.
  - intros a b Hne. rewrite !Hlt.
    destruct a as [ax ay], b as [bx by']. unfold x, y. cbn [m_x m_y].
    destruct (Z.eq_dec ax bx) as [-> | Hx];
      [destruct (Z.eq_dec ay by') as [-> | Hy]; [contradiction | lia] | lia].
Qed.

(** X19: the six comparison operators agree with one another: [==] is equality
    of both coordinates and [!=] its negation, [>] is [<] with the operands
    exchanged, [<=] is [<] or [==], and [>=] is [<=] with the operands
    exchanged. *)
Theorem Location_comparisons_agree (a b : Location) :
  (Location_eq a b = true <-> a = b)
  /\ (Location_ne a b = true <-> a <> b)
  /\ Location_gt a b = Location_lt b a
  /\ Location_le a b = Location_lt a b || Location_eq a b
  /\ Location_ge a b = Location_le b a
  /\ Location_ge a b = Location_gt a b || Location_eq a b.
Proof.
  pose proof (Location_eq_true a b) as Heq.
  split; [exact Heq |]. split.
  - unfold Location_ne. rewrite negb_true_iff.
    destruct (Location_eq a b); split; intros H; try discriminate.
    + exfalso. apply H, Heq. reflexivity.
    + intros Hab. apply Heq in Hab. discriminate.
    + reflexivity.
  - unfold Location_gt, Location_ge, Location_le, Location_lt, Location_eq.
    destruct a as [ax ay], b as [bx by']. unfold x, y. cbn [m_x m_y].
    repeat split;
      destruct (Z.eqb_spec ax bx), (Z.eqb_spec bx ax),
               (Z.eqb_spec ay by'), (Z.eqb_spec by' ay),
               (Z.ltb_spec ax bx), (Z.ltb_spec bx ax),
               (Z.ltb_spec ay by'), (Z.ltb_spec by' ay);
      cbn [andb orb negb]; try reflexivity; lia.
Qed.

(** ** Validity and the undefined coordinate *)

(** X20: a valid Location is defined: neither coordinate is the value that
    marks an undefined one; the degree getters and [as_string] return. *)
Theorem valid_is_defined (l : Location) (separator : ascii)
  (Hvalid : valid l = true) :
  defined l = true
  /\ x l <> undefined_coordinate /\ y l <> undefined_coordinate
  /\ int32_Location l
  /\ lon l = OK (lon_without_check l) /\ lat l = OK (lat_without_check l)
  /\ as_string l separator = OK (as_string_without_check l separator).
Proof.
  unfold valid, coordinate_precision in Hvalid.
  repeat (apply andb_true_iff in Hvalid; destruct Hvalid as [Hvalid ?]).
  repeat match goal with H : (_ <=? _) = true |- _ => apply Z.leb_le in H end.
  assert (Hv : valid l = true).
  { unfold valid, coordinate_precision.
    repeat (apply andb_true_iff; split); apply Z.leb_le; lia. }
  unfold defined, x, y, undefined_coordinate, int32_Location,
    int32_min, int32_max, lon, lat, as_string,
    lon_without_check, lat_without_check in *.
  unfold x, y in *. rewrite Hv. cbn [negb].
  refine (conj _ (conj _ (conj _ (conj (conj _ _) (conj _ (conj _ _))))));
    try reflexivity; lia.
Qed.

Lemma valid_is_defined_witness :
  defined (make_Location (-1800000000) 900000000) = true.
Proof.
  apply (valid_is_defined (make_Location (-1800000000) 900000000) ","%char).
  reflexivity.
Defined.

(** ** Hashes *)

Lemma low_bits_mod (a b : Z) :
  (forall n, 0 <= n < 32 -> Z.testbit a n = Z.testbit b n) ->
  a mod 2 ^ 32 = b mod 2 ^ 32.
Proof.
  intros H. apply Z.bits_inj'. intros n Hn.
  destruct (Z.ltb_spec n 32).
  - rewrite !Z.mod_pow2_bits_low by lia. apply H. lia.
  - rewrite !Z.mod_pow2_bits_high by lia. reflexivity.
Qed.

Lemma int32_mod_eq (a b : Z) :
  int32_min <= a <= int32_max -> int32_min <= b <= int32_max ->
  a mod 2 ^ 32 = b mod 2 ^ 32 -> a = b.
Proof.
  unfold int32_min, int32_max. change (2 ^ 32) with 4294967296.
  intros Ha Hb H.
  assert (Hnz : 4294967296 <> 0) by lia.
  pose proof (Z.div_mod a 4294967296 Hnz) as Da.
  pose proof (Z.div_mod b 4294967296 Hnz) as Db.
  rewrite H in Da. revert Da Db.
  generalize (a / 4294967296) (b / 4294967296) (b mod 4294967296).
  intros qa qb m Da Db. lia.
Qed.

Lemma hash_8_bit (l : Location) (n : Z) :
  0 <= n < 64 ->
  Z.testbit (hash_8 l) n
  = xorb (if n <? 32 then false else Z.testbit (x l) (n - 32))
         (Z.testbit (y l) n).
Proof.
  intros Hn. unfold hash_8. cbv zeta.
  rewrite Z.lxor_spec.
  rewrite !Z.mod_pow2_bits_low by lia.
  rewrite Z.shiftl_spec by lia.
  destruct (Z.ltb_spec n 32).
  - rewrite Z.testbit_neg_r by lia. reflexivity.
  - rewrite Z.mod_pow2_bits_low by lia. reflexivity.
Qed.

(** X21: with a [size_t] of 64 bits two different Locations never have the
    same hash. *)
Theorem hash_8_injective (a b : Location)
  (Ha : int32_Location a) (Hb : int32_Location b) (Hne : a <> b) :
  Location_hash 8 a <> Location_hash 8 b.
Proof.
  change (Location_hash 8 a) with (hash_8 a).
  change (Location_hash 8 b) with (hash_8 b).
  intros Hh. apply Hne.
  destruct Ha as [Hax Hay], Hb as [Hbx Hby].
  assert (Hbit : forall n, 0 <= n < 64 ->
            xorb (if n <? 32 then false else Z.testbit (x a) (n - 32))
                 (Z.testbit (y a) n)
            = xorb (if n <? 32 then false else Z.testbit (x b) (n - 32))
                   (Z.testbit (y b) n)).
  { intros n Hn. rewrite <- !hash_8_bit by assumption. now rewrite Hh. }
  assert (Hy : y a = y b).
  { apply int32_mod_eq; try assumption. apply low_bits_mod. intros n Hn.
    specialize (Hbit n ltac:(lia)).
    replace (n <? 32) with true in Hbit by (symmetry; apply Z.ltb_lt; lia).
    exact Hbit. }
  assert (Hx : x a = x b).
  { apply int32_mod_eq; try assumption. apply low_bits_mod. intros n Hn.
    specialize (Hbit (n + 32) ltac:(lia)).
    replace (n + 32 <? 32) with false in Hbit
      by (symmetry; apply Z.ltb_ge; lia).
    replace (n + 32 - 32) with n in Hbit by lia.
    rewrite Hy in Hbit. apply xorb_move_l_r_2 in Hbit.
    rewrite Hbit, xorb_assoc, xorb_nilpotent, xorb_false_r. reflexivity. }
  destruct a as [ax ay], b as [bx by']. unfold x, y in *. cbn [m_x m_y] in *.
  congruence.
Qed.

Lemma hash_8_injective_witness :
  Location_hash 8 (make_Location 1 (-1)) <> Location_hash 8 (make_Location (-2) 0).
Proof.
  apply (hash_8_injective (make_Location 1 (-1)) (make_Location (-2) 0)).
  - unfold int32_Location, x, y, int32_min, int32_max. cbn. lia.
  - unfold int32_Location, x, y, int32_min, int32_max. cbn. lia.
  - discriminate.
Defined.

(** X22: with a [size_t] of another size the hash is the exclusive or of the
    two coordinates: a Location and the one with the coordinates exchanged
    have the same hash, and every Location with two equal coordinates has the
    hash 0. *)
Theorem hash_generic_collisions (N cx cy : Z) (HN : 0 < N /\ N <> 8) :
  Location_hash N (make_Location cx cy) = Location_hash N (make_Location cy cx)
  /\ Location_hash N (make_Location cx cx) = 0.
Proof.
  destruct HN as [Hpos HN].
  unfold Location_hash. apply Z.eqb_neq in HN. rewrite HN.
  unfold hash_generic, x, y. cbn [m_x m_y].
  rewrite (Z.lxor_comm cx cy), Z.lxor_nilpotent.
  split; [reflexivity | apply Z.mod_0_l].
  apply Z.pow_nonzero; lia.
Qed.

Lemma hash_generic_collisions_witness :
  Location_hash 4 (make_Location 3 (-7)) = Location_hash 4 (make_Location (-7) 3)
  /\ Location_hash 4 (make_Location 3 3) = 0.
Proof.
  apply (hash_generic_collisions 4 3 (-7)). lia.
Defined.

(** ** More on [str_to_int] *)

Lemma get_max_int_pos (T : int_type) : 0 < get_max_int T <= llong_max.
Proof. destruct T; vm_compute; split; congruence. Qed.

Lemma str_to_int_cases (T : int_type) (str : cstring) :
  let r := strtoll str in
  str_to_int T str
  = if (strtoll_errno r =? 0) && is_char_nul (peek (strtoll_end r))
       && (0 <=? strtoll_value r) && (strtoll_value r <? get_max_int T)
    then strtoll_value r else 0.
Proof.
  intros r. unfold str_to_int. fold r.
  destruct (strtoll_errno r =? 0); cbn [negb orb andb]; [| reflexivity].
  destruct (is_char_nul (peek (strtoll_end r))); cbn [negb orb andb].
  - rewrite orb_false_r.
    destruct (strtoll_value r <? 0) eqn:Hneg; cbn [orb].
    + apply Z.ltb_lt in Hneg.
      replace (0 <=? strtoll_value r) with false
        by (symmetry; apply Z.leb_gt; lia).
      reflexivity.
    + apply Z.ltb_ge in Hneg.
      replace (0 <=? strtoll_value r) with true
        by (symmetry; apply Z.leb_le; lia).
      cbn [andb].
      destruct (get_max_int T <=? strtoll_value r) eqn:Hge.
      * apply Z.leb_le in Hge.
        replace (strtoll_value r <? get_max_int T) with false
          by (symmetry; apply Z.ltb_ge; lia).
        reflexivity.
      * apply Z.leb_gt in Hge.
        replace (strtoll_value r <? get_max_int T) with true
          by (symmetry; apply Z.ltb_lt; lia).
        apply static_cast_small. lia.
  - rewrite orb_true_r. reflexivity.
Qed.


Lemma read_number_digits (ds : list Z) (rest : cstring) :
  forall acc,
    Forall is_digit_value ds -> is_digit (peek rest) = false ->
    read_number (map digit_char ds ++ rest) acc = (rest, msd_value ds acc).
Proof.
  induction ds as [| d ds IH]; intros acc Hds Hrest.
  - cbn [map app msd_value fold_left].
    destruct rest as [| c rest]; [reflexivity |].
    cbn [peek] in Hrest. cbn [read_number]. rewrite Hrest. reflexivity.
  - inversion Hds as [| ? ? Hd Hds']; subst.
    destruct (digit_char_cases d Hd) as [Hdig [Hval _]].
    cbn [map app read_number]. rewrite Hdig, Hval. apply IH; assumption.
Qed.

Lemma digit_char_not_space (d : Z) :
  is_digit_value d ->
  isspace (digit_char d) = false /\ is_char (digit_char d) "+" = false.
Proof.
  unfold is_digit_value. intros H.
  assert (Hc : d = 0 \/ d = 1 \/ d = 2 \/ d = 3 \/ d = 4 \/ d = 5 \/ d = 6
               \/ d = 7 \/ d = 8 \/ d = 9) by lia.
  repeat (destruct Hc as [-> | Hc]); try subst d; split; reflexivity.
Qed.

Lemma strtoll_digits (ds : list Z) (rest : cstring) :
  Forall is_digit_value ds -> ds <> [] -> is_digit (peek rest) = false ->
  strtoll (map digit_char ds ++ rest)
  = if llong_max <? msd_value ds 0
    then {| strtoll_value := llong_max; strtoll_end := rest;
            strtoll_errno := ERANGE |}
    else {| strtoll_value := msd_value ds 0; strtoll_end := rest;
            strtoll_errno := 0 |}.
Proof.
  intros Hds Hne Hrest.
  pose proof (msd_value_bounds ds Hds) as Hb.
  destruct ds as [| d ds]; [contradiction |].
  inversion Hds as [| ? ? Hd Hds']; subst.
  destruct (digit_char_cases d Hd) as [Hdig [_ [_ [_ Hminus]]]].
  destruct (digit_char_not_space d Hd) as [Hsp Hplus].
  unfold strtoll. cbn [map app skip_space]. rewrite Hsp.
  cbn [peek]. rewrite Hminus, Hplus. cbv beta iota. cbn [peek]. rewrite Hdig.
  change (digit_char d :: map digit_char ds ++ rest)
    with (map digit_char (d :: ds) ++ rest).
  rewrite read_number_digits by assumption.
  destruct (llong_max <? msd_value (d :: ds) 0); [reflexivity |].
  replace (msd_value (d :: ds) 0 <? llong_min) with false
    by (symmetry; apply Z.ltb_ge; unfold llong_min; lia).
  reflexivity.
Qed.

(** X24: on a text of decimal digits, with or without leading zeros,
    [str_to_int<T>] gives the number the digits spell when it is below
    [get_max_int<T>()], and 0 otherwise, however long the text. *)
Theorem str_to_int_digits (T : int_type) (ds : list Z)
  (Hds : Forall is_digit_value ds) (Hne : ds <> []) :
  str_to_int T (map digit_char ds)
  = if msd_value ds 0 <? get_max_int T then msd_value ds 0 else 0.
Proof.
  pose proof (get_max_int_pos T) as Hpos.
  pose proof (msd_value_bounds ds Hds) as Hb.
  rewrite str_to_int_cases. cbv zeta.
  rewrite <- (app_nil_r (map digit_char ds)).
  rewrite (strtoll_digits ds [] Hds Hne) by reflexivity.
  destruct (Z.ltb_spec llong_max (msd_value ds 0)) as [Hbig | Hfit].
  - cbn. destruct (Z.ltb_spec (msd_value ds 0) (get_max_int T)); [lia | reflexivity].
  - cbn [strtoll_value strtoll_end strtoll_errno peek].
    change (0 =? 0) with true. change (is_char_nul NUL) with true.
    replace (0 <=? msd_value ds 0) with true by (symmetry; apply Z.leb_le; lia).
    reflexivity.
Qed.

Lemma str_to_int_digits_witness :
  str_to_int uint32_t (cstr "004294967294") = 4294967294
  /\ str_to_int uint32_t (cstr "4294967295") = 0
  /\ str_to_int int64_t (cstr "99999999999999999999") = 0.
Proof.
  refine (conj _ (conj _ _)).
  - apply (str_to_int_digits uint32_t [0; 0; 4; 2; 9; 4; 9; 6; 7; 2; 9; 4]).
    + repeat constructor; unfold is_digit_value; lia.
    + discriminate.
  - apply (str_to_int_digits uint32_t [4; 2; 9; 4; 9; 6; 7; 2; 9; 5]).
    + repeat constructor; unfold is_digit_value; lia.
    + discriminate.
  - apply (str_to_int_digits int64_t (repeat 9 20)).
    + repeat constructor; unfold is_digit_value; lia.
    + discriminate.
Defined.

Lemma skip_space_app (ws str : cstring) :
  Forall (fun c => isspace c = true) ws ->
  skip_space (ws ++ str) = skip_space str.
Proof.
  induction 1 as [| c ws Hc _ IH]; [reflexivity |].
  cbn [app skip_space]. rewrite Hc. exact IH.
Qed.

(** X25: white space in front of the text does not change the result of
    [str_to_int]. *)
Theorem str_to_int_leading_space (T : int_type) (ws str : cstring)
  (Hws : Forall (fun c => isspace c = true) ws) :
  str_to_int T (ws ++ str) = str_to_int T str.
Proof.
  rewrite !str_to_int_cases. cbv zeta.
  unfold strtoll. rewrite (skip_space_app ws str Hws).
  destruct (if is_char (peek (skip_space str)) "-"
            then (next (skip_space str), true)
            else if is_char (peek (skip_space str)) "+"
                 then (next (skip_space str), false)
                 else (skip_space str, false)) as [s negative].
  destruct (is_digit (peek s)).
  - destruct (read_number s 0) as [rest n]. reflexivity.
  - cbn [strtoll_value strtoll_end strtoll_errno].
    replace (0 <? get_max_int T) with true
      by (symmetry; apply Z.ltb_lt; apply get_max_int_pos).
    destruct (is_char_nul (peek (ws ++ str))), (is_char_nul (peek str));
      reflexivity.
Qed.

Lemma str_to_int_leading_space_witness :
  str_to_int int32_t (cstr "   42") = str_to_int int32_t (cstr "42").
Proof.
  apply (str_to_int_leading_space int32_t (cstr "   ") (cstr "42")).
  repeat constructor.
Defined.

(** X26: [str_to_int] gives 0 for a number with a minus sign, and for a number
    that is followed by a character other than a digit. *)
Theorem str_to_int_rejects (T : int_type) (ds : list Z) (c : ascii)
  (rest : cstring)
  (Hds : Forall is_digit_value ds) (Hne : ds <> [])
  (Hc : is_digit c = false) (Hnul : is_char_nul c = false) :
  str_to_int T ("-"%char :: map digit_char ds) = 0
  /\ str_to_int T (map digit_char ds ++ c :: rest) = 0.
Proof.
  pose proof (get_max_int_pos T) as Hpos.
  pose proof (msd_value_bounds ds Hds) as Hb.
  split.
  - rewrite str_to_int_cases. cbv zeta.
    destruct ds as [| d ds']; [contradiction |].
    inversion Hds as [| ? ? Hd Hds']; subst.
    destruct (digit_char_cases d Hd) as [Hdig _].
    unfold strtoll. cbn [skip_space].
    change (isspace "-") with false. cbv beta iota. cbn [peek].
    change (is_char "-" "-") with true. cbv beta iota.
    cbn [peek next tl map]. rewrite Hdig.
    change (digit_char d :: map digit_char ds')
      with (map digit_char (d :: ds')).
    rewrite <- (app_nil_r (map digit_char (d :: ds'))).
    rewrite read_number_digits by (try assumption; reflexivity).
    replace (llong_max <? - msd_value (d :: ds') 0) with false
      by (symmetry; apply Z.ltb_ge; unfold llong_max; lia).
    destruct (- msd_value (d :: ds') 0 <? llong_min);
      cbn [strtoll_value strtoll_end strtoll_errno]; [reflexivity |].
    destruct (Z.leb_spec 0 (- msd_value (d :: ds') 0)) as [H0 | H0].
    + assert (Hz : msd_value (d :: ds') 0 = 0) by lia. rewrite Hz.
      destruct (_ && _ && _ && _); reflexivity.
    + rewrite !andb_false_r. reflexivity.
  - rewrite str_to_int_cases. cbv zeta.
    rewrite (strtoll_digits ds (c :: rest) Hds Hne Hc).
    destruct (llong_max <? msd_value ds 0);
      cbn [strtoll_value strtoll_end strtoll_errno peek];
      [reflexivity |].
    rewrite Hnul, andb_false_r. reflexivity.
Qed.

Lemma str_to_int_rejects_witness :
  str_to_int uint16_t (cstr "-12") = 0
  /\ str_to_int uint16_t (cstr "12 ") = 0.
Proof.
  apply (str_to_int_rejects uint16_t [1; 2] " "%char []).
  - repeat constructor; unfold is_digit_value; lia.
  - discriminate.
  - reflexivity.
  - reflexivity.
Defined.

(** ** The buffer of the formatter *)

Lemma write_digits_length (room : nat) :
  forall v temp,
    (1 <= room)%nat ->
    (List.length temp + 1 <= List.length (write_digits room v temp)
     <= List.length temp + room)%nat.
Proof.
  induction room as [| room IH]; intros v temp Hroom; [lia |].
  cbn [write_digits].
  destruct (Z.quot v 10 =? 0).
  - rewrite length_app. cbn [List.length]. lia.
  - destruct room as [| room'].
    + cbn [write_digits]. rewrite length_app. cbn [List.length]. lia.
    + specialize (IH (Z.quot v 10) (temp ++ [chr (Z.rem v 10 + ord "0")])
                     ltac:(lia)).
      rewrite length_app in IH. cbn [List.length] in IH. lia.
Qed.

(** X27: the ten places of [temp] are enough for every [int32_t], the least
    one included: the digit loop writes what it would write with more room,
    between one and ten characters, and the padding brings them to seven at
    least and ten at most. *)
Theorem write_digits_ten_places (v : Z) (room : nat)
  (Hv : int32_min <= v <= int32_max) (Hroom : (10 <= room)%nat) :
  write_digits room v [] = write_digits 10 v []
  /\ (1 <= List.length (write_digits 10 v []) <= 10)%nat
  /\ (7 <= List.length (pad_to_seven (write_digits 10 v [])) <= 10)%nat.
Proof.
  unfold int32_min, int32_max in Hv.
  split; [| split].
  - apply (write_digits_room 10); try lia.
    change (pow10 10) with 10000000000. lia.
  - pose proof (write_digits_length 10 v [] ltac:(lia)) as H.
    cbn [List.length] in H. lia.
  - pose proof (write_digits_length 10 v [] ltac:(lia)) as H.
    cbn [List.length] in H.
    unfold pad_to_seven. rewrite length_app, repeat_length. lia.
Qed.

Lemma write_digits_ten_places_witness :
  write_digits 64 (-2147483648) [] = write_digits 10 (-2147483648) [].
Proof.
  apply (write_digits_ten_places (-2147483648) 64).
  - unfold int32_min, int32_max. lia.
  - lia.
Defined.

(** X28: two different [int32_t] values, neither the least one, have different
    texts. *)
Theorem format_injective (v w : Z)
  (Hv : int32_min < v <= int32_max) (Hw : int32_min < w <= int32_max)
  (Hne : v <> w) :
  append_location_coordinate_to_string v
  <> append_location_coordinate_to_string w.
Proof.
  intros Heq. apply Hne.
  pose proof (format_parse_int32 v Hv) as Pv.
  pose proof (format_parse_int32 w Hw) as Pw.
  rewrite Heq in Pv. rewrite Pv in Pw. congruence.
Qed.

Lemma format_injective_witness :
  append_location_coordinate_to_string 10000000
  <> append_location_coordinate_to_string 1.
Proof.
  apply (format_injective 10000000 1);
    unfold int32_min, int32_max; lia.
Defined.
